(** * Exponential backoff with capping and jitter

    A shallow embedding of [exponential-backoff.ts]: the result record
    [BackoffResult], the calculator [calculateExponentialBackoff] and the
    stateful [RetryManager].

    The source computes on JavaScript numbers.  The embedding is written
    once, over an interface [JSNumber] holding exactly the numeric
    operations the source uses, and is then read at two instances:

    - [Q], exact rational arithmetic: no rounding and no special values.
      The arithmetic statements (formulas, bounds, normalization,
      monotonicity) are settled here.
    - [spec_float] at precision 53 and maximal exponent 1024, the IEEE-754
      binary64 format of a JavaScript number, with its rounding and its
      infinities.  The statement about numeric overflow is settled here.

    What does not depend on the arithmetic (which branch is taken, which
    fields are computed from which, what is done to the world) is proved
    once, for every instance.

    [Math.random] and the timer are effects: they are threaded through an
    explicit [World].

    The development goes on with the rest of the code: the text
    [BackoffResult.toString] builds, runs of the [RetryManager] of any
    length, the timer factory of [exponential-backoff-timer.ts], whose
    debug output is a further effect and whose observables are modelled by
    what a subscriber receives, and the delay functions of
    [exponential-backoff-example.ts]. *)

From Stdlib Require Import ZArith QArith Qround Qminmax Qpower Qabs.
From Stdlib Require Import Lia Lqa Bool List.
From Stdlib Require Import SpecFloat.
From Stdlib Require String Ascii.
Import ListNotations.
Import String.StringSyntax.
Delimit Scope string_scope with string.
Infix "++" := String.append : string_scope.

Declare Scope js_scope.
Delimit Scope js_scope with js.

(** ** The numeric operations of the source *)

Class JSNumber (num : Type) : Type := {
  (** a numeric literal of the program text, given by its decimal value *)
  literal : Q -> num;
  num_add : num -> num -> num;
  num_sub : num -> num -> num;
  num_mul : num -> num -> num;
  (** the comparison [x > y] *)
  num_gt : num -> num -> bool;
  Math_max : num -> num -> num;
  Math_min : num -> num -> num;
  Math_floor : num -> num;
  Math_abs : num -> num;
  (** [Math.pow(2, x)], the only use of [Math.pow] in the source *)
  Math_pow2 : num -> num
}.

Infix "+" := num_add : js_scope.
Infix "-" := num_sub : js_scope.
Infix "*" := num_mul : js_scope.
Infix ">?" := num_gt (at level 70, no associativity) : js_scope.

Section Backoff.

Context {num : Type} {NUM : JSNumber num}.

(** *** Effects: the random source and the timer *)

(** [random_source] is the sequence of values [Math.random()] is going to
    return, [random_calls] counts the calls made so far, and [timeouts]
    logs, most recent first, the delays that were waited for. *)
Record World : Type := {
  random_source : nat -> num;
  random_calls : nat;
  timeouts : list num
}.

Definition JS (A : Type) : Type := World -> A * World.

Definition ret {A : Type} (a : A) : JS A := fun w => (a, w).

Definition bind {A B : Type} (c : JS A) (k : A -> JS B) : JS B :=
  fun w => let (a, w') := c w in k a w'.

Notation "x <- c ;; k" := (bind c (fun x => k))
  (at level 61, c at next level, right associativity) : js_scope.
Notation "' pat <- c ;; k" := (bind c (fun x => match x with pat => k end))
  (at level 61, pat pattern, c at next level, right associativity)
  : js_scope.

(** The value the next call of [Math.random()] returns. *)
Definition next_random (w : World) : num :=
  random_source w (random_calls w).

Definition Math_random : JS num :=
  fun w => (next_random w,
            {| random_source := random_source w;
               random_calls := S (random_calls w);
               timeouts := timeouts w |}).

(** [await new Promise(resolve => setTimeout(resolve, ms))] *)
Definition setTimeout (ms : num) : JS unit :=
  fun w => (tt,
            {| random_source := random_source w;
               random_calls := random_calls w;
               timeouts := ms :: timeouts w |}).

(** *** [BackoffOptions] *)

(** Every field is optional in the source: [None] is a missing field. *)
Record BackoffOptions : Type := {
  baseDelayMs : option num;
  maxDelayMs : option num;
  jitterFactor : option num
}.

(** The object literal [{}]. *)
Definition no_options : BackoffOptions :=
  {| baseDelayMs := None; maxDelayMs := None; jitterFactor := None |}.

(** A destructuring default [field = d], and [field ?? d]. *)
Definition default (d : num) (field : option num) : num :=
  match field with
  | Some x => x
  | None => d
  end.

(** *** [BackoffResult] *)

Record BackoffResult : Type := {
  delayMs : num;
  rawDelayMs : num;
  cappedDelayMs : num;
  jitterOffsetMs : num;
  wasCapped : bool;
  retryAttempt : num
}.

(** The constructor of the class. *)
Definition new_BackoffResult
    (delayMs' rawDelayMs' cappedDelayMs' jitterOffsetMs' retryAttempt' : num)
    : BackoffResult :=
  {| delayMs := Math_max (literal 0) delayMs';
     rawDelayMs := rawDelayMs';
     cappedDelayMs := cappedDelayMs';
     jitterOffsetMs := jitterOffsetMs';
     wasCapped := (rawDelayMs' >? cappedDelayMs')%js;
     retryAttempt := retryAttempt' |}.

(** *** [calculateExponentialBackoff] *)

Definition normalizedAttempt (retryAttempt' : num) : num :=
  Math_max (literal 1) (Math_floor retryAttempt').

(** The second parameter is optional; when it is absent it is [{}].  The
    two variables the source assigns in the jitter branch,
    [jitterOffsetMs] and [finalDelayMs], are the pair that branch
    returns. *)
Definition calculateExponentialBackoff
    (retryAttempt' : num) (options : option BackoffOptions)
    : JS BackoffResult :=
  let o := match options with Some o => o | None => no_options end in
  let baseDelayMs' := default (literal 1000) (baseDelayMs o) in
  let maxDelayMs' := default (literal 5000) (maxDelayMs o) in
  let jitterFactor' := default (literal (1 # 5)) (jitterFactor o) in
  let normalizedAttempt' := normalizedAttempt retryAttempt' in
  let rawDelayMs' :=
    (baseDelayMs' * Math_pow2 (normalizedAttempt' - literal 1))%js in
  let cappedDelayMs' := Math_min rawDelayMs' maxDelayMs' in
  (' (jitterOffsetMs', finalDelayMs) <-
     (if jitterFactor' >? literal 0 then
        let jitterRangeMs := cappedDelayMs' * Math_abs jitterFactor' in
        u <- Math_random ;;
        let jitterOffsetMs' := (u * literal 2 - literal 1) * jitterRangeMs in
        ret (jitterOffsetMs',
             Math_max (literal 0) (cappedDelayMs' + jitterOffsetMs'))
      else ret (literal 0, cappedDelayMs')) ;;
   ret (new_BackoffResult finalDelayMs rawDelayMs' cappedDelayMs'
                          jitterOffsetMs' normalizedAttempt'))%js.

(** The quantities the calculator names, as functions of its inputs:
    the three destructured fields with their defaults, the raw and the
    capped delay, and the jitter offset for a random value [u]. *)

Definition base_of (options : option BackoffOptions) : num :=
  default (literal 1000)
    (baseDelayMs match options with Some o => o | None => no_options end).

Definition max_of (options : option BackoffOptions) : num :=
  default (literal 5000)
    (maxDelayMs match options with Some o => o | None => no_options end).

Definition jitter_of (options : option BackoffOptions) : num :=
  default (literal (1 # 5))
    (jitterFactor match options with Some o => o | None => no_options end).

Definition rawDelay (base retryAttempt' : num) : num :=
  (base * Math_pow2 (normalizedAttempt retryAttempt' - literal 1))%js.

Definition cappedDelay (base max retryAttempt' : num) : num :=
  Math_min (rawDelay base retryAttempt') max.

Definition jitterOffset (capped jitter u : num) : num :=
  ((u * literal 2 - literal 1) * (capped * Math_abs jitter))%js.

(** *** [RetryManager] *)

(** [_options] holds all three fields (it is [Required<BackoffOptions>]). *)
Record RetryManager : Type := {
  _attemptCount : num;
  _options : BackoffOptions
}.

Definition attemptCount (this : RetryManager) : num := _attemptCount this.

Definition new_RetryManager (options : option BackoffOptions)
    : RetryManager :=
  let o := match options with Some o => o | None => no_options end in
  {| _attemptCount := literal 0;
     _options :=
       {| baseDelayMs := Some (default (literal 1000) (baseDelayMs o));
          maxDelayMs := Some (default (literal 5000) (maxDelayMs o));
          jitterFactor := Some (default (literal (1 # 5)) (jitterFactor o))
       |} |}.

Definition canRetry (this : RetryManager) : bool := true.

Definition shouldRetry {E : Type} (this : RetryManager) (_error : E)
    : bool := true.

(** The method mutates [this]: the updated manager is returned with the
    result. *)
Definition waitForNextRetry (this : RetryManager)
    : JS (BackoffResult * RetryManager) :=
  let this' := {| _attemptCount := (_attemptCount this + literal 1)%js;
                  _options := _options this |} in
  (backoffResult <- calculateExponentialBackoff (_attemptCount this')
                                                (Some (_options this')) ;;
   _ <- setTimeout (delayMs backoffResult) ;;
   ret (backoffResult, this'))%js.

Definition previewNextDelay (this : RetryManager) : JS BackoffResult :=
  calculateExponentialBackoff (_attemptCount this + literal 1)%js
                              (Some (_options this)).

Definition reset (this : RetryManager) : RetryManager :=
  {| _attemptCount := literal 0; _options := _options this |}.

End Backoff.

Arguments World : clear implicits.
Arguments BackoffOptions : clear implicits.
Arguments BackoffResult : clear implicits.
Arguments RetryManager : clear implicits.

(** ** Exact arithmetic *)

Module Exact.

Definition Qgtb (x y : Q) : bool :=
  match x ?= y with
  | Gt => true
  | _ => false
  end.

(** [Math.pow(2, x)] is exact at an integer [x]; the exponent the source
    passes is always an integer (see [exponent_is_integer] below). *)
#[export] Instance Q_number : JSNumber Q := {
  literal := fun q => q;
  num_add := Qplus;
  num_sub := Qminus;
  num_mul := Qmult;
  num_gt := Qgtb;
  Math_max := Qmax;
  Math_min := Qmin;
  Math_floor := fun x => inject_Z (Qfloor x);
  Math_abs := Qabs;
  Math_pow2 := fun x => Qpower 2 (Qfloor x)
}.

(** A configuration with all three fields given. *)
Definition config (base max jitter : Q) : option (BackoffOptions Q) :=
  Some {| baseDelayMs := Some base;
          maxDelayMs := Some max;
          jitterFactor := Some jitter |}.

(** A world whose random source always returns [u]. *)
Definition constant_world (u : Q) : World Q :=
  {| random_source := fun _ => u; random_calls := 0; timeouts := [] |}.

Definition is_integer (x : Q) : Prop := inject_Z (Qfloor x) == x.

End Exact.

(** ** IEEE-754 binary64 *)

Module IEEE.

Definition prec : Z := 53.
Definition emax : Z := 1024.

Definition NaN : spec_float := S754_nan.
Definition pos_Infinity : spec_float := S754_infinity false.
Definition neg_Infinity : spec_float := S754_infinity true.

(** The double nearest to an integer. *)
Definition of_Z (z : Z) : spec_float := binary_normalize prec emax z 0 false.

(** The double denoted by a literal of decimal value [q]: the correctly
    rounded quotient, exact for the literals of the source whose value is
    an integer. *)
Definition of_Q (q : Q) : spec_float :=
  match Qden q with
  | xH => of_Z (Qnum q)
  | d => SFdiv prec emax (of_Z (Qnum q)) (of_Z (Zpos d))
  end.

Definition is_finite (x : spec_float) : bool :=
  match x with
  | S754_zero _ | S754_finite _ _ _ => true
  | _ => false
  end.

(** [Math.max]: NaN if an argument is NaN; [+0] is larger than [-0]. *)
Definition max (x y : spec_float) : spec_float :=
  match SFcompare x y with
  | None => NaN
  | Some Lt => y
  | Some Gt => x
  | Some Eq =>
      match x, y with
      | S754_zero sx, S754_zero sy => S754_zero (sx && sy)
      | _, _ => x
      end
  end.

(** [Math.min]: NaN if an argument is NaN; [-0] is smaller than [+0]. *)
Definition min (x y : spec_float) : spec_float :=
  match SFcompare x y with
  | None => NaN
  | Some Lt => x
  | Some Gt => y
  | Some Eq =>
      match x, y with
      | S754_zero sx, S754_zero sy => S754_zero (sx || sy)
      | _, _ => x
      end
  end.

(** [Math.floor]: a number with a negative exponent [e] has the value
    [± m / 2^(-e)]; the integer below it is again a double. *)
Definition floor (x : spec_float) : spec_float :=
  match x with
  | S754_finite s m (Zneg p) =>
      binary_normalize prec emax
        (cond_Zopp s (Zpos m) / Z.pow_pos 2 p) 0 s
  | _ => x
  end.

Definition is_positive (x : spec_float) : bool :=
  match x with
  | S754_finite false _ _ | S754_infinity false => true
  | _ => false
  end.

(** The double 1. *)
Definition one : spec_float := S754_finite false 4503599627370496 (-52).

(** [m * 2^n]. *)
Definition shl (m : positive) (n : nat) : positive := Nat.iter n xO m.

(** The integer a finite double stands for, if it is one. *)
Definition integer_value (s : bool) (m : positive) (e : Z) : option Z :=
  match e with
  | Zneg p =>
      if (Zpos m mod Z.pow_pos 2 p =? 0)%Z
      then Some (cond_Zopp s (Zpos m / Z.pow_pos 2 p))
      else None
  | _ => Some (cond_Zopp s (Zpos m * 2 ^ e))
  end.

(** The doubles that are not a finite number with a fractional part:
    the integers, the zeros, the infinities and NaN. *)
Definition is_integral (x : spec_float) : bool :=
  match x with
  | S754_finite s m e =>
      match integer_value s m e with Some _ => true | None => false end
  | _ => true
  end.

(** [Math.pow(2, x)] at NaN, at the infinities and at an integer [x],
    where the power of two is representable or overflows to [+Infinity]
    or underflows to [+0].  At a finite [x] that is not an integer the
    language leaves the result implementation-approximated: no value is
    modelled there, and [NaN] marks the gap.  The exponent the source
    passes is [Math.max(1, Math.floor(retryAttempt)) - 1], never such a
    value ([exponent_is_integral] below). *)
Definition pow2 (x : spec_float) : spec_float :=
  match x with
  | S754_nan => NaN
  | S754_infinity false => pos_Infinity
  | S754_infinity true => S754_zero false
  | S754_zero _ => of_Z 1
  | S754_finite s m e =>
      match integer_value s m e with
      | Some k =>
          if (k <? -1075)%Z then S754_zero false
          else binary_round prec emax false 1 k
      | None => NaN
      end
  end.

(** The exponents at which [Math.pow(2, x)] is out of range. *)
Definition exponent_overflows (x : spec_float) : bool :=
  match x with
  | S754_infinity false => true
  | S754_finite s m e =>
      match integer_value s m e with
      | Some k => (1024 <=? k)%Z
      | None => false
      end
  | _ => false
  end.

#[export] Instance binary64 : JSNumber spec_float := {
  literal := of_Q;
  num_add := SFadd prec emax;
  num_sub := SFsub prec emax;
  num_mul := SFmul prec emax;
  num_gt := fun x y => SFltb y x;
  Math_max := max;
  Math_min := min;
  Math_floor := floor;
  Math_abs := SFabs;
  Math_pow2 := pow2
}.

(** A world whose random source always returns [u]. *)
Definition double_world (u : spec_float) : World spec_float :=
  {| random_source := fun _ => u; random_calls := 0; timeouts := [] |}.

Definition double_config (base max jitter : Q)
    : option (BackoffOptions spec_float) :=
  Some {| baseDelayMs := Some (of_Q base);
          maxDelayMs := Some (of_Q max);
          jitterFactor := Some (of_Q jitter) |}.

End IEEE.

(** ** Text, runs of the retry manager, and the timer factory *)

(** What [toString] asks of a number beyond [JSNumber]: two more
    comparisons, [Math.round], and the text a template literal puts for
    the number. *)
Class JSNumberText (num : Type) : Type := {
  (** the comparison [x !== y] *)
  num_ne : num -> num -> bool;
  (** the comparison [x >= y] *)
  num_ge : num -> num -> bool;
  Math_round : num -> num;
  Number_toString : num -> String.string
}.

Section Timer.

Context {num : Type} {NUM : JSNumber num} {TXT : JSNumberText num}.

(** *** [BackoffResult.toString] *)

(** [result] is assigned four times in the source; each assignment is
    one [let]. *)
Definition toString (this : BackoffResult num)
    : String.string :=
  let result :=
    ("Retry " ++ Number_toString (retryAttempt this) ++ ": "
     ++ Number_toString (delayMs this) ++ "ms (raw: "
     ++ Number_toString (rawDelayMs this) ++ "ms")%string in
  let result :=
    if wasCapped this then (result ++ ", capped")%string else result in
  let result :=
    if num_ne (jitterOffsetMs this) (literal 0) then
      let sign :=
        if num_ge (jitterOffsetMs this) (literal 0)
        then "+"%string else ""%string in
      (result ++ (", jitter: " ++ sign
                  ++ Number_toString (Math_round (jitterOffsetMs this))
                  ++ "ms"))%string
    else (result ++ ", no jitter")%string in
  (result ++ ")")%string.

(** *** [RetryManager]: the getter [options] and a run of calls *)

(** [Object.freeze({ ...this._options })]: a copy of the options. *)
Definition options (this : RetryManager num) : BackoffOptions num :=
  {| baseDelayMs := baseDelayMs (_options this);
     maxDelayMs := maxDelayMs (_options this);
     jitterFactor := jitterFactor (_options this) |}.

(** [n] calls of [waitForNextRetry] one after the other, as a retry loop
    makes them; the results are returned in the order of the calls. *)
Fixpoint waits (n : nat) (this : RetryManager num)
    : JS (list (BackoffResult num) * RetryManager num) :=
  match n with
  | O => fun w => (([], this), w)
  | S n' =>
      fun w =>
        let '((backoffResult, this'), w') := waitForNextRetry this w in
        let '((results, this''), w'') := waits n' this' w' in
        ((backoffResult :: results, this''), w'')
  end.

(** *** Observables *)

(** An [Observable<number>] is modelled by what its subscriber receives:
    the notifications in order, each with the time, in milliseconds after
    subscribing, at which it arrives.  Unsubscribing stops the delivery and
    is not modelled. *)
Inductive Notification : Type :=
| next (value : num)
| complete.

Definition Observable : Type := list (num * Notification).

(** RxJS [timer(dueTime)]: the value 0 after [dueTime], then completion. *)
Definition timer (dueTime : num) : Observable :=
  [(dueTime, next (literal 0)); (dueTime, complete)].

(** The observable [create] builds around [observable] when [emitDelay]
    is set: on subscription it emits [delay] at once, subscribes to
    [observable], emits 0 for each value of [observable] and completes
    with it. *)
Definition new_Observable (delay : num) (observable : Observable)
    : Observable :=
  (literal 0, next delay)
  :: map (fun tn : num * Notification =>
            match tn with
            | (t, next _) => (t, next (literal 0))
            | (t, complete) => (t, complete)
            end)
         observable.

(** *** [BackoffTimerOptions] *)

(** The interface extends [BackoffOptions]: [backoffOptions] holds the
    inherited fields. *)
Record BackoffTimerOptions : Type := {
  backoffOptions : BackoffOptions num;
  emitDelay : option bool;
  enableDebugLogs : option bool
}.

(** The object literal [{}]. *)
Definition no_timer_options : BackoffTimerOptions :=
  {| backoffOptions := no_options; emitDelay := None;
     enableDebugLogs := None |}.

(** [field ?? d] at a boolean field. *)
Definition default_flag (d : bool) (field : option bool) : bool :=
  match field with
  | Some b => b
  | None => d
  end.

(** The test [if (field)] at a boolean field: [undefined] is false. *)
Definition truthy (field : option bool) : bool :=
  match field with
  | Some b => b
  | None => false
  end.

(** A property of the object passed as [overrideOptions]: it is missing,
    or it is present, and then it may hold [undefined].  The spread
    [{ ...a, ...b }] copies the present properties of [b], the ones
    holding [undefined] too. *)
Inductive Property (A : Type) : Type :=
| missing
| present (value : option A).

Arguments missing {A}.
Arguments present {A} value.

Record PartialBackoffTimerOptions : Type := {
  override_baseDelayMs : Property num;
  override_maxDelayMs : Property num;
  override_jitterFactor : Property num;
  override_emitDelay : Property bool;
  override_enableDebugLogs : Property bool
}.

Definition spread_field {A : Type} (field : option A)
    (override : Property A) : option A :=
  match override with
  | missing => field
  | present value => value
  end.

(** [{ ...options, ...overrideOptions }], where [overrideOptions] may be
    [undefined]. *)
Definition spread (options' : BackoffTimerOptions)
    (overrideOptions : option PartialBackoffTimerOptions)
    : BackoffTimerOptions :=
  match overrideOptions with
  | None => options'
  | Some o =>
      {| backoffOptions :=
           {| baseDelayMs :=
                spread_field (baseDelayMs (backoffOptions options'))
                             (override_baseDelayMs o);
              maxDelayMs :=
                spread_field (maxDelayMs (backoffOptions options'))
                             (override_maxDelayMs o);
              jitterFactor :=
                spread_field (jitterFactor (backoffOptions options'))
                             (override_jitterFactor o) |};
         emitDelay := spread_field (emitDelay options') (override_emitDelay o);
         enableDebugLogs :=
           spread_field (enableDebugLogs options')
                        (override_enableDebugLogs o) |}
  end.

(** *** The console *)

(** [console.debug] is one more effect: [Runtime] adds to the world the
    lines written, most recent first. *)
Record Runtime : Type := {
  world : World num;
  console : list String.string
}.

Definition IO (A : Type) : Type := Runtime -> A * Runtime.

Definition io_ret {A : Type} (a : A) : IO A := fun k => (a, k).

Definition io_bind {A B : Type} (c : IO A) (f : A -> IO B) : IO B :=
  fun k => let (a, k') := c k in f a k'.

(** A computation on the world, run inside [IO]. *)
Definition run {A : Type} (c : JS A) : IO A :=
  fun k =>
    let (a, w') := c (world k) in
    (a, {| world := w'; console := console k |}).

Definition console_debug (line : String.string) : IO unit :=
  fun k => (tt, {| world := world k; console := line :: console k |}).

Notation "x <- c ;; f" := (io_bind c (fun x => f))
  (at level 61, c at next level, right associativity) : js_scope.

(** *** [BackoffTimerFactory] *)

(** The private field [options] holds all five fields (it is
    [Required<BackoffTimerOptions>]). *)
Record BackoffTimerFactory : Type := {
  this_options : BackoffTimerOptions
}.

Definition new_BackoffTimerFactory (options' : option BackoffTimerOptions)
    : BackoffTimerFactory :=
  let o := match options' with Some o => o | None => no_timer_options end in
  {| this_options :=
       {| backoffOptions :=
            {| baseDelayMs :=
                 Some (default (literal 1000)
                               (baseDelayMs (backoffOptions o)));
               maxDelayMs :=
                 Some (default (literal 5000)
                               (maxDelayMs (backoffOptions o)));
               jitterFactor :=
                 Some (default (literal (1 # 5))
                               (jitterFactor (backoffOptions o))) |};
          emitDelay := Some (default_flag false (emitDelay o));
          enableDebugLogs := Some (default_flag false (enableDebugLogs o))
       |} |}.

Definition create (this : BackoffTimerFactory) (retryCount : num)
    (overrideOptions : option PartialBackoffTimerOptions)
    : IO Observable :=
  let options' := spread (this_options this) overrideOptions in
  (backoffResult <-
     run (calculateExponentialBackoff retryCount
            (Some {| baseDelayMs := baseDelayMs (backoffOptions options');
                     maxDelayMs := maxDelayMs (backoffOptions options');
                     jitterFactor :=
                       jitterFactor (backoffOptions options') |})) ;;
   _ <- (if truthy (enableDebugLogs options')
         then console_debug
                ("[exponential-backoff-timer] "
                 ++ toString backoffResult)%string
         else io_ret tt) ;;
   let observable := timer (delayMs backoffResult) in
   if truthy (emitDelay options')
   then io_ret (new_Observable (delayMs backoffResult) observable)
   else io_ret observable)%js.

(** [Object.freeze({ ...this.options })]: a copy of the options. *)
Definition getOptions (this : BackoffTimerFactory) : BackoffTimerOptions :=
  {| backoffOptions :=
       {| baseDelayMs := baseDelayMs (backoffOptions (this_options this));
          maxDelayMs := maxDelayMs (backoffOptions (this_options this));
          jitterFactor :=
            jitterFactor (backoffOptions (this_options this)) |};
     emitDelay := emitDelay (this_options this);
     enableDebugLogs := enableDebugLogs (this_options this) |}.

(** The factory is made once, when the delay function is made. *)
Definition createBackoffDelayFunction {E : Type}
    (options' : option BackoffTimerOptions) : E -> num -> IO Observable :=
  let factory := new_BackoffTimerFactory options' in
  fun (_error : E) (retryCount : num) => create factory retryCount None.

Definition createBackoffTimer (retryCount : num)
    (options' : option BackoffTimerOptions) : IO Observable :=
  let factory := new_BackoffTimerFactory options' in
  create factory retryCount None.

Definition debugBackoffDelay {E : Type} : E -> num -> IO Observable :=
  createBackoffDelayFunction
    (Some {| backoffOptions :=
               {| baseDelayMs := Some (literal 1000);
                  maxDelayMs := Some (literal 5000);
                  jitterFactor := Some (literal (1 # 5)) |};
             emitDelay := Some false;
             enableDebugLogs := Some true |}).

End Timer.

Arguments missing {A}.
Arguments present {A} value.
Arguments Notification : clear implicits.
Arguments Observable : clear implicits.
Arguments BackoffTimerOptions : clear implicits.
Arguments PartialBackoffTimerOptions : clear implicits.
Arguments Runtime : clear implicits.
Arguments BackoffTimerFactory : clear implicits.

(** *** Text over exact arithmetic *)

(** [Math.round] is the integer nearest to its argument, the larger one
    at a tie.  The text of a number is left open: [show] is any function
    from numbers to strings. *)
Definition Q_text (show : Q -> String.string) : JSNumberText Q := {|
  num_ne := fun x y => negb (Qeq_bool x y);
  num_ge := fun x y => Qle_bool y x;
  Math_round := fun x => inject_Z (Qfloor (x + (1 # 2)));
  Number_toString := show
|}.


(** *** Classes of doubles *)

Definition is_NaN (x : spec_float) : bool :=
  match x with
  | S754_nan => true
  | _ => false
  end.

(** A zero, a finite number or an infinity of sign [s] ([true] is
    minus). *)
Definition has_sign (s : bool) (x : spec_float) : bool :=
  match x with
  | S754_zero s' | S754_infinity s' | S754_finite s' _ _ => Bool.eqb s s'
  | S754_nan => false
  end.

(** The doubles [0 < x < +Infinity]. *)
Definition is_positive_finite (x : spec_float) : bool :=
  match x with
  | S754_finite false _ _ => true
  | _ => false
  end.

(** ** The delay functions of [HttpRetryService]

    [exponential-backoff-example.ts] passes three delay functions to the
    RxJS operator [retry], which calls them with the error and the number
    of the retry.  A delay function returns an observable or throws; the
    operator itself is not modelled. *)

Section HttpRetryService.

Context {num : Type} {NUM : JSNumber num} {TXT : JSNumberText num}.

Record HttpRequestError : Type := {
  message : String.string;
  status : num
}.

(** What a delay function does: [throw error] or [return observable]. *)
Inductive Outcome (E : Type) : Type :=
| throw (error : E)
| returned (observable : Observable num).

Arguments throw {E} error.
Arguments returned {E} observable.

(** The field [backoffDelayFunction]. *)
Definition backoffDelayFunction {E : Type}
    : E -> num -> IO (Observable num) :=
  createBackoffDelayFunction
    (Some {| backoffOptions :=
               {| baseDelayMs := Some (literal 250);
                  maxDelayMs := Some (literal 1000);
                  jitterFactor := Some (literal (1 # 4)) |};
             emitDelay := None;
             enableDebugLogs := None |}).

(** The [delay] of [retryHttpRequestWithCustomLogic]; [shouldRetry] is
    optional. *)
Definition customLogicDelay {E : Type} (shouldRetry' : option (E -> bool))
    (error : E) (retryCount : num) : IO (Outcome E) :=
  if match shouldRetry' with
     | Some f => negb (f error)
     | None => false
     end
  then io_ret (throw error)
  else
    io_bind
      (createBackoffTimer retryCount
         (Some {| backoffOptions :=
                    {| baseDelayMs := Some (literal 1000);
                       maxDelayMs := Some (literal 5000);
                       jitterFactor := Some (literal (1 # 5)) |};
                  emitDelay := None;
                  enableDebugLogs := None |}))
      (fun observable => io_ret (returned observable)).

(** The [delay] of [retryHttpWithStatusCodeLogic].  [x < y] is [y > x],
    and [x === y] is the negation of [x !== y]. *)
Definition statusCodeDelay (error : HttpRequestError) (retryCount : num)
    : IO (Outcome HttpRequestError) :=
  if (literal 500 >? status error)%js
     && num_ne (status error) (literal 429)
  then io_ret (throw error)
  else
    let baseDelayMs' :=
      if negb (num_ne (status error) (literal 429))
      then literal 2000 else literal 1000 in
    io_bind
      (createBackoffTimer retryCount
         (Some {| backoffOptions :=
                    {| baseDelayMs := Some baseDelayMs';
                       maxDelayMs := Some (literal 30000);
                       jitterFactor := Some (literal (1 # 4)) |};
                  emitDelay := None;
                  enableDebugLogs := None |}))
      (fun observable => io_ret (returned observable)).

End HttpRetryService.

Arguments HttpRequestError : clear implicits.
Arguments Outcome : clear implicits.
Arguments throw {num E} error.
Arguments returned {num E} observable.



(** * The calculator, step by step *)

Section CalculatorFacts.

Context {num : Type} {NUM : JSNumber num}.

Implicit Types (a : num) (options : option (BackoffOptions num)).
Implicit Types (w : World num).

(** With the jitter test false the random source is left alone. *)
Lemma calc_jitter_off a options w :
  (jitter_of options >? literal 0)%js = false ->
  calculateExponentialBackoff a options w =
    (new_BackoffResult
       (cappedDelay (base_of options) (max_of options) a)
       (rawDelay (base_of options) a)
       (cappedDelay (base_of options) (max_of options) a)
       (literal 0)
       (normalizedAttempt a),
     w).
Proof.
  intros E.
  unfold calculateExponentialBackoff, bind, ret.
  fold (jitter_of options). rewrite E. reflexivity.
Qed.

(** With the jitter test true one random value is drawn. *)
Lemma calc_jitter_on a options w :
  (jitter_of options >? literal 0)%js = true ->
  let capped := cappedDelay (base_of options) (max_of options) a in
  let offset := jitterOffset capped (jitter_of options) (next_random w) in
  calculateExponentialBackoff a options w =
    (new_BackoffResult
       (Math_max (literal 0) (capped + offset)%js)
       (rawDelay (base_of options) a)
       capped
       offset
       (normalizedAttempt a),
     {| random_source := random_source w;
        random_calls := S (random_calls w);
        timeouts := timeouts w |}).
Proof.
  intros E.
  unfold calculateExponentialBackoff, bind, ret, Math_random.
  fold (jitter_of options). rewrite E. reflexivity.
Qed.

(** The attempt enters the computation through its normal form only. *)
Lemma calc_normalized a b options w :
  normalizedAttempt a = normalizedAttempt b ->
  calculateExponentialBackoff a options w =
  calculateExponentialBackoff b options w.
Proof.
  intros E. unfold calculateExponentialBackoff.
  rewrite E. reflexivity.
Qed.

(** The fields that do not depend on the jitter branch. *)
Lemma calc_fixed_fields a options w :
  let r := fst (calculateExponentialBackoff a options w) in
  retryAttempt r = normalizedAttempt a /\
  rawDelayMs r = rawDelay (base_of options) a /\
  cappedDelayMs r = cappedDelay (base_of options) (max_of options) a /\
  wasCapped r = (rawDelayMs r >? cappedDelayMs r)%js.
Proof.
  destruct (jitter_of options >? literal 0)%js eqn:E; cbv zeta.
  - rewrite (calc_jitter_on _ _ _ E). repeat split.
  - rewrite (calc_jitter_off _ _ _ E). repeat split.
Qed.

(** Missing fields, and a missing options object, stand for the defaults. *)
Lemma calc_defaults a options w :
  calculateExponentialBackoff a options w =
  calculateExponentialBackoff a
    (Some {| baseDelayMs := Some (base_of options);
             maxDelayMs := Some (max_of options);
             jitterFactor := Some (jitter_of options) |}) w.
Proof. reflexivity. Qed.

End CalculatorFacts.

(** * Exact arithmetic *)

Import Exact.
Local Open Scope Q_scope.

Lemma Qgtb_true (x y : Q) : Qgtb x y = true <-> y < x.
Proof.
  unfold Qgtb. rewrite Qgt_alt.
  destruct (x ?= y); split; congruence.
Qed.

Lemma Qgtb_false (x y : Q) : Qgtb x y = false <-> x <= y.
Proof.
  unfold Qgtb. rewrite Qle_alt.
  destruct (x ?= y); split; congruence.
Qed.

Lemma jitter_on_exact (options : option (BackoffOptions Q)) :
  0 < jitter_of options -> (jitter_of options >? literal 0)%js = true.
Proof. intros H. apply Qgtb_true. exact H. Qed.

Lemma jitter_off_exact (options : option (BackoffOptions Q)) :
  jitter_of options <= 0 -> (jitter_of options >? literal 0)%js = false.
Proof. intros H. apply Qgtb_false. exact H. Qed.

Lemma Qmax_inject_Z (x y : Z) :
  Qmax (inject_Z x) (inject_Z y) == inject_Z (Z.max x y).
Proof.
  destruct (Z.max_spec x y) as [[L ->] | [L ->]].
  - apply Q.max_r. rewrite <- Zle_Qle. lia.
  - apply Q.max_l. rewrite <- Zle_Qle. lia.
Qed.

(** The normal form of an attempt is the integer [max 1 (floor a)]. *)
Lemma normalizedAttempt_exact (a : Q) :
  normalizedAttempt a == inject_Z (Z.max 1 (Qfloor a)).
Proof.
  unfold normalizedAttempt. cbn [Math_max Math_floor literal Q_number].
  apply (Qmax_inject_Z 1 (Qfloor a)).
Qed.

(** The exponent passed to [Math.pow] is that integer less one. *)
Lemma exponent_exact (a : Q) :
  Qfloor (normalizedAttempt a - 1) = (Z.max 1 (Qfloor a) - 1)%Z.
Proof.
  rewrite normalizedAttempt_exact.
  setoid_replace (inject_Z (Z.max 1 (Qfloor a)) - 1)
    with (inject_Z (Z.max 1 (Qfloor a) - 1)).
  - apply Qfloor_Z.
  - unfold Z.sub. rewrite inject_Z_plus, inject_Z_opp. reflexivity.
Qed.

(** It is an integer and it is not negative: [Math.pow(2, x)] is only
    ever asked for a power [2^k] with [k] a natural number. *)
Lemma exponent_is_integer (a : Q) :
  is_integer (normalizedAttempt a - 1) /\ 0 <= normalizedAttempt a - 1.
Proof.
  unfold is_integer. rewrite exponent_exact, normalizedAttempt_exact.
  split.
  - unfold Z.sub. rewrite inject_Z_plus, inject_Z_opp. reflexivity.
  - assert (H : 1 <= inject_Z (Z.max 1 (Qfloor a))).
    { change 1 with (inject_Z 1). rewrite <- Zle_Qle. lia. }
    lra.
Qed.

Lemma rawDelay_exact (base a : Q) :
  rawDelay base a == base * 2 ^ (Z.max 1 (Qfloor a) - 1).
Proof.
  unfold rawDelay. cbn [num_mul num_sub Math_pow2 literal Q_number].
  rewrite exponent_exact. reflexivity.
Qed.

Lemma cappedDelay_exact (base max a : Q) :
  cappedDelay base max a == Qmin (base * 2 ^ (Z.max 1 (Qfloor a) - 1)) max.
Proof.
  unfold cappedDelay. cbn [Math_min Q_number].
  rewrite rawDelay_exact. reflexivity.
Qed.

Lemma floor_of_integer (a : Q) (n : Z) : a == inject_Z n -> Qfloor a = n.
Proof. intros ->. apply Qfloor_Z. Qed.


Lemma pow2_pos (k : Z) : 0 < 2 ^ k.
Proof. apply Qpower_0_lt. reflexivity. Qed.



Lemma capped_positive (base max a : Q) :
  0 < base -> 0 < max -> 0 < cappedDelay base max a.
Proof.
  intros Hb Hm. rewrite cappedDelay_exact.
  apply Q.min_glb_lt; [| exact Hm].
  apply Qmult_lt_0_compat; [exact Hb | apply pow2_pos].
Qed.

(** ** The delay without jitter *)




(** ** Normalization of the attempt *)

Lemma Qmax_1_small (k : Z) : (k <= 1)%Z -> Qmax 1 (inject_Z k) = 1.
Proof.
  intros H. unfold Qmax, GenericMinMax.gmax.
  destruct (1 ?= inject_Z k) eqn:E; try reflexivity.
  apply Qlt_alt in E. change 1 with (inject_Z 1) in E.
  rewrite <- Zlt_Qlt in E. lia.
Qed.

Lemma floor_below_2 (a : Q) : a < 2 -> (Qfloor a <= 1)%Z.
Proof.
  intros H. pose proof (Qfloor_le a) as L.
  assert (F : inject_Z (Qfloor a) < inject_Z 2).
  { apply Qle_lt_trans with a; assumption. }
  rewrite <- Zlt_Qlt in F. lia.
Qed.


(** C2, as amended.  An attempt below 2 (every attempt [<= 0], and every
    fractional attempt below 2) gives the very result of attempt 1, in all
    six fields and in the use of the random source.  A fractional attempt
    from 1 on is not treated as attempt 1 but as its floor: from 2 on the
    attempt reported is not 1. *)
Theorem attempt_below_two_is_attempt_one
    (a : Q) (options : option (BackoffOptions Q)) (w : World Q) :
  (a < 2 ->
   calculateExponentialBackoff a options w =
   calculateExponentialBackoff 1 options w) /\
  (1 <= a ->
   calculateExponentialBackoff a options w =
   calculateExponentialBackoff (inject_Z (Qfloor a)) options w) /\
  (2 <= a ->
   ~ retryAttempt (fst (calculateExponentialBackoff a options w)) == 1).
Proof.
  split; [| split]; intros H.
  - apply calc_normalized. unfold normalizedAttempt.
    cbn [Math_max Math_floor literal Q_number].
    rewrite (Qmax_1_small (Qfloor a)) by (apply floor_below_2; exact H).
    reflexivity.
  - apply calc_normalized. unfold normalizedAttempt.
    cbn [Math_max Math_floor literal Q_number].
    rewrite Qfloor_Z. reflexivity.
  - destruct (calc_fixed_fields a options w) as (Hn & _).
    cbv zeta in Hn. rewrite Hn, normalizedAttempt_exact.
    pose proof (Qfloor_resp_le 2 a H) as Hf.
    change (Qfloor 2) with 2%Z in Hf.
    change 1 with (inject_Z 1). rewrite inject_Z_injective. lia.
Qed.

Lemma attempt_below_two_is_attempt_one_witness :
  (-3 # 2) < 2 /\
  calculateExponentialBackoff (-3 # 2) (config 1000 5000 (1 # 5))
                              (constant_world (1 # 4)) =
  calculateExponentialBackoff 1 (config 1000 5000 (1 # 5))
                              (constant_world (1 # 4)).
Proof.
  assert (H : (-3 # 2) < 2) by reflexivity.
  split; [exact H |].
  exact (proj1 (attempt_below_two_is_attempt_one
                  (-3 # 2) (config 1000 5000 (1 # 5))
                  (constant_world (1 # 4))) H).
Defined.

(** The attempt 5/2 is not an integer, and it is treated as attempt 2:
    the delay is 2000 where attempt 1 gives 1000. *)
Lemma attempt_below_two_is_attempt_one_counterexample :
  let r := fst (calculateExponentialBackoff (5 # 2) (config 1000 5000 0)
                                            (constant_world 0)) in
  let r1 := fst (calculateExponentialBackoff 1 (config 1000 5000 0)
                                             (constant_world 0)) in
  ~ is_integer (5 # 2) /\
  retryAttempt r == 2 /\ retryAttempt r1 == 1 /\
  delayMs r == 2000 /\ delayMs r1 == 1000 /\
  r <> r1.
Proof. vm_compute. repeat split; discriminate. Qed.

(** ** The delay is never negative *)


(** ** Jitter *)

Lemma offset_bounds (c f u : Q) :
  0 <= c -> 0 < f -> 0 <= u < 1 ->
  - (c * f) <= (u * 2 - 1) * (c * f) <= c * f /\
  (0 < c -> (u * 2 - 1) * (c * f) < c * f).
Proof.
  intros Hc Hf [Hu0 Hu1].
  assert (Hcf : 0 <= c * f) by (apply Qmult_le_0_compat; lra).
  split; [split |]; [nra | nra |].
  intros Hc'.
  assert (Hcf' : 0 < c * f) by (apply Qmult_lt_0_compat; lra).
  nra.
Qed.







(** ** The cap *)

(** C6.  [wasCapped] is true exactly when the raw delay is above the
    capped delay, which is the minimum of the raw delay and the maximal
    delay; that is, exactly when the raw delay [base * 2^(n-1)] is above
    the maximal delay. *)
Theorem wasCapped_iff_raw_exceeds_cap
    (a : Q) (options : option (BackoffOptions Q)) (w : World Q) :
  let r := fst (calculateExponentialBackoff a options w) in
  cappedDelayMs r == Qmin (rawDelayMs r) (max_of options) /\
  (wasCapped r = true <-> cappedDelayMs r < rawDelayMs r) /\
  (wasCapped r = true <-> max_of options < rawDelayMs r) /\
  rawDelayMs r == base_of options * 2 ^ (Z.max 1 (Qfloor a) - 1).
Proof.
  destruct (calc_fixed_fields a options w) as (_ & Hraw & Hcap & Hwas).
  cbv zeta in *. rewrite Hwas, Hcap, Hraw.
  cbn [num_gt Q_number]. rewrite Qgtb_true.
  unfold cappedDelay. cbn [Math_min Q_number].
  set (raw := rawDelay (base_of options) a).
  split; [reflexivity |].
  split; [reflexivity |].
  split; [| apply rawDelay_exact].
  destruct (Q.min_spec raw (max_of options)) as [[L E] | [L E]];
    rewrite E; split; intros H; lra.
Qed.

(** ** Monotonicity *)

Lemma rawDelay_monotone (base a b : Q) :
  0 <= base -> a <= b -> rawDelay base a <= rawDelay base b.
Proof.
  intros Hb Hab. rewrite !rawDelay_exact.
  pose proof (Qfloor_resp_le a b Hab) as Hf.
  assert (Hp : 2 ^ (Z.max 1 (Qfloor a) - 1) <= 2 ^ (Z.max 1 (Qfloor b) - 1)).
  { apply Qpower_le_compat_l; [lia | discriminate]. }
  rewrite !(Qmult_comm base).
  apply Qmult_le_compat_r; assumption.
Qed.

(** C10.  With a positive base delay and the jitter disabled, the
    returned delay does not decrease when the attempt grows, and it never
    exceeds the larger of the base delay and the maximal delay. *)
Theorem delay_monotone_in_attempt
    (a b : Q) (options : option (BackoffOptions Q)) (w w' : World Q) :
  0 < base_of options -> jitter_of options <= 0 -> a <= b ->
  let da := delayMs (fst (calculateExponentialBackoff a options w)) in
  let db := delayMs (fst (calculateExponentialBackoff b options w')) in
  da <= db /\ db <= Qmax (base_of options) (max_of options).
Proof.
  intros Hb Hf Hab. cbv zeta.
  pose proof (jitter_off_exact options Hf) as E.
  rewrite !(calc_jitter_off _ _ _ E).
  cbn [fst delayMs new_BackoffResult Math_max literal Q_number].
  unfold cappedDelay. cbn [Math_min Q_number].
  split.
  - apply Q.max_le_compat_l, Q.min_le_compat_r.
    apply rawDelay_monotone; [apply Qlt_le_weak |]; assumption.
  - apply Q.max_lub.
    + apply Qle_trans with (base_of options);
        [apply Qlt_le_weak; exact Hb | apply Q.le_max_l].
    + apply Qle_trans with (max_of options);
        [apply Q.le_min_r | apply Q.le_max_r].
Qed.

Lemma delay_monotone_in_attempt_witness :
  let o := config 1000 5000 0 in
  0 < base_of o /\ jitter_of o <= 0 /\ 2 <= (7 # 2) /\
  delayMs (fst (calculateExponentialBackoff 2 o (constant_world 0)))
  <= delayMs (fst (calculateExponentialBackoff
                     (7 # 2) o (constant_world (1 # 2)))).
Proof.
  cbv zeta.
  assert (Hb : 0 < base_of (config 1000 5000 0)) by reflexivity.
  assert (Hf : jitter_of (config 1000 5000 0) <= 0) by discriminate.
  assert (Hab : 2 <= (7 # 2)) by discriminate.
  split; [exact Hb | split; [exact Hf | split; [exact Hab |]]].
  exact (proj1 (delay_monotone_in_attempt 2 (7 # 2) (config 1000 5000 0)
                  (constant_world 0) (constant_world (1 # 2)) Hb Hf Hab)).
Defined.

(** ** The retry manager *)

Section RetryManagerFacts.

Context {num : Type} {NUM : JSNumber num}.

(** One call of [waitForNextRetry]: the counter goes up by one, the
    calculator runs at the new counter, and the delay it returns is the
    one waited for. *)
Lemma waitForNextRetry_step (this : RetryManager num) (w : World num) :
  let next := (_attemptCount this + literal 1)%js in
  let c := calculateExponentialBackoff next (Some (_options this)) w in
  waitForNextRetry this w =
    ((fst c, {| _attemptCount := next; _options := _options this |}),
     {| random_source := random_source (snd c);
        random_calls := random_calls (snd c);
        timeouts := delayMs (fst c) :: timeouts (snd c) |}).
Proof.
  cbv zeta. unfold waitForNextRetry, bind, ret, setTimeout.
  cbn [_attemptCount _options].
  destruct (calculateExponentialBackoff _ _ w) as [r w']. reflexivity.
Qed.

Lemma waitForNextRetry_attempt (this : RetryManager num) (w : World num) :
  retryAttempt (fst (fst (waitForNextRetry this w))) =
  normalizedAttempt (_attemptCount this + literal 1)%js.
Proof.
  rewrite waitForNextRetry_step. cbn [fst].
  apply calc_fixed_fields.
Qed.

Lemma waitForNextRetry_count (this : RetryManager num) (w : World num) :
  _attemptCount (snd (fst (waitForNextRetry this w))) =
  (_attemptCount this + literal 1)%js.
Proof. rewrite waitForNextRetry_step. reflexivity. Qed.

(** [previewNextDelay] computes at the same attempt and leaves the
    counter alone. *)
Lemma previewNextDelay_is_next (this : RetryManager num) (w : World num) :
  fst (previewNextDelay this w) = fst (fst (waitForNextRetry this w)).
Proof. rewrite waitForNextRetry_step. reflexivity. Qed.

End RetryManagerFacts.

(** C9.  On a fresh manager three calls of [waitForNextRetry] return the
    attempts 1, 2 and 3 and leave the counter at 3; [reset] puts the
    counter back to 0 and the next call returns attempt 1 again.  Every
    call adds exactly one to the counter and computes at the new value. *)
Theorem three_waits_then_reset
    (options : option (BackoffOptions Q)) (w0 : World Q) :
  let m0 := new_RetryManager options in
  let s1 := waitForNextRetry m0 w0 in
  let s2 := waitForNextRetry (snd (fst s1)) (snd s1) in
  let s3 := waitForNextRetry (snd (fst s2)) (snd s2) in
  let m4 := reset (snd (fst s3)) in
  let s5 := waitForNextRetry m4 (snd s3) in
  attemptCount m0 == 0 /\
  retryAttempt (fst (fst s1)) == 1 /\
  retryAttempt (fst (fst s2)) == 2 /\
  retryAttempt (fst (fst s3)) == 3 /\
  attemptCount (snd (fst s3)) == 3 /\
  attemptCount m4 == 0 /\
  retryAttempt (fst (fst s5)) == 1 /\
  attemptCount (snd (fst s5)) == 1 /\
  (forall (m : RetryManager Q) (w : World Q),
     attemptCount (snd (fst (waitForNextRetry m w))) == attemptCount m + 1 /\
     retryAttempt (fst (fst (waitForNextRetry m w))) ==
       Qmax 1 (inject_Z (Qfloor (attemptCount m + 1)))).
Proof.
  cbv zeta. unfold attemptCount.
  rewrite !waitForNextRetry_attempt.
  unfold reset. cbn [_attemptCount].
  rewrite !waitForNextRetry_count.
  unfold new_RetryManager. cbn [_attemptCount].
  repeat (split; [reflexivity |]).
  intros m w. rewrite waitForNextRetry_attempt, waitForNextRetry_count.
  split; reflexivity.
Qed.

(** ** Totality and normalization *)


(** * Binary64 *)

Import IEEE.

(** ** Integers *)

(** [iter_pos] counts in binary; the proofs count in unary. *)
Lemma iter_pos_nat {A} (f : A -> A) (p : positive) (x : A) :
  iter_pos f p x = Nat.iter (Pos.to_nat p) f x.
Proof.
  revert x. induction p as [p IH | p IH |]; intros x; cbn [iter_pos].
  - rewrite !IH, Pos2Nat.inj_xI.
    replace (S (2 * Pos.to_nat p))
      with (S (Pos.to_nat p + Pos.to_nat p)) by lia.
    rewrite Nat.iter_succ_r, Nat.iter_add. reflexivity.
  - rewrite !IH, Pos2Nat.inj_xO.
    replace (2 * Pos.to_nat p)%nat
      with (Pos.to_nat p + Pos.to_nat p)%nat by lia.
    rewrite Nat.iter_add. reflexivity.
  - reflexivity.
Qed.

Lemma shl_value m n : Zpos (shl m n) = (Zpos m * 2 ^ Z.of_nat n)%Z.
Proof.
  induction n as [| n IH].
  - cbn. lia.
  - change (shl m (S n)) with (xO (shl m n)).
    rewrite Pos2Z.inj_xO, IH, Nat2Z.inj_succ, Z.pow_succ_r by lia. lia.
Qed.

Lemma shl_digits m n :
  Zpos (digits2_pos (shl m n)) = (Zpos (digits2_pos m) + Z.of_nat n)%Z.
Proof.
  induction n as [| n IH].
  - cbn. lia.
  - change (shl m (S n)) with (xO (shl m n)). cbn [digits2_pos].
    rewrite Pos2Z.inj_succ, IH. lia.
Qed.

Lemma pos_iter_shl m (d : positive) :
  Pos.iter xO m d = shl m (Pos.to_nat d).
Proof. unfold shl. apply Pos2Nat.inj_iter. Qed.

(** Shifting a multiple of [2^n] right by [n] places loses nothing. *)
Lemma shr_1_shl m n :
  shr_1 {| shr_m := Zpos (shl m (S n)); shr_r := false; shr_s := false |}
  = {| shr_m := Zpos (shl m n); shr_r := false; shr_s := false |}.
Proof. reflexivity. Qed.

Lemma iter_shr_1_shl m n k :
  Nat.iter k shr_1
    {| shr_m := Zpos (shl m (k + n)); shr_r := false; shr_s := false |}
  = {| shr_m := Zpos (shl m n); shr_r := false; shr_s := false |}.
Proof.
  induction k as [| k IH].
  - reflexivity.
  - rewrite Nat.iter_succ_r. cbn [Nat.add]. rewrite shr_1_shl. exact IH.
Qed.

Lemma fexp_eq (d : Z) : fexp prec emax d = Z.max (d - 53) (-1074).
Proof. reflexivity. Qed.

Lemma shr_exponent (mrs : shr_record) (e n : Z) : (e <= snd (shr mrs e n))%Z.
Proof. destruct n; cbn [shr snd]; lia. Qed.

(** The exponent of a rounded number is at least the one the first shift
    moves to. *)
Lemma binary_round_aux_exponent s m e l s' m' e' :
  binary_round_aux prec emax s m e l = S754_finite s' m' e' ->
  (snd (shr_fexp prec emax m e l) <= e')%Z.
Proof.
  unfold binary_round_aux.
  destruct (shr_fexp prec emax m e l) as [mrs1 e1]. cbn [snd].
  set (m2 := round_nearest_even (shr_m mrs1) (loc_of_shr_record mrs1)).
  pose proof (shr_exponent (shr_record_of_loc m2 loc_Exact) e1
                (fexp prec emax (Zdigits2 m2 + e1) - e1)) as H.
  unfold shr_fexp.
  destruct (shr (shr_record_of_loc m2 loc_Exact) e1
              (fexp prec emax (Zdigits2 m2 + e1) - e1)) as [mrs2 e2].
  cbn [snd] in H.
  destruct (shr_m mrs2); try discriminate.
  destruct (e2 <=? emax - prec)%Z; try discriminate.
  intros [= _ _ <-]. exact H.
Qed.

Lemma is_integral_nonneg s m e :
  (0 <= e)%Z -> is_integral (S754_finite s m e) = true.
Proof.
  intros H. unfold is_integral, integer_value.
  destruct e; try reflexivity. lia.
Qed.

Lemma is_integral_shl s q e :
  (e <= 0)%Z -> is_integral (S754_finite s (shl q (Z.to_nat (- e))) e) = true.
Proof.
  intros H. unfold is_integral, integer_value.
  destruct e as [| p | p]; try reflexivity.
  rewrite shl_value. cbn [Z.opp].
  rewrite Z2Nat.id by lia.
  rewrite Z.pow_pos_fold.
  rewrite Z.mod_mul by (apply Z.pow_nonzero; lia).
  reflexivity.
Qed.

Lemma shl_shl q a b : shl (shl q a) b = shl q (b + a).
Proof. unfold shl. rewrite Nat.iter_add. reflexivity. Qed.

(** A number with [j] trailing zeros, whose other digits are canonical at
    the exponent [e + j], rounds to those digits. *)
Lemma binary_round_aux_shift s q j e :
  fexp prec emax (Zpos (digits2_pos q) + (e + Z.of_nat j))
  = (e + Z.of_nat j)%Z ->
  (e + Z.of_nat j <= emax - prec)%Z ->
  binary_round_aux prec emax s (Zpos (shl q j)) e loc_Exact
  = S754_finite s q (e + Z.of_nat j).
Proof.
  intros Hcan Hmax.
  assert (Hfirst : shr_fexp prec emax (Zpos (shl q j)) e loc_Exact
                   = ({| shr_m := Zpos q; shr_r := false; shr_s := false |},
                      (e + Z.of_nat j)%Z)).
  { unfold shr_fexp. cbn [Zdigits2 shr_record_of_loc].
    rewrite shl_digits.
    replace (Zpos (digits2_pos q) + Z.of_nat j + e)%Z
      with (Zpos (digits2_pos q) + (e + Z.of_nat j))%Z by lia.
    rewrite Hcan.
    replace (e + Z.of_nat j - e)%Z with (Z.of_nat j) by lia.
    destruct j as [| j].
    - cbn [Z.of_nat shr]. rewrite Z.add_0_r. reflexivity.
    - cbn [Z.of_nat shr]. rewrite iter_pos_nat, SuccNat2Pos.id_succ.
      replace (shl q (S j)) with (shl q (S j + 0))
        by (rewrite Nat.add_0_r; reflexivity).
      rewrite iter_shr_1_shl. reflexivity. }
  unfold binary_round_aux. rewrite Hfirst.
  cbn [shr_m loc_of_shr_record round_nearest_even].
  unfold shr_fexp. cbn [Zdigits2 shr_record_of_loc].
  rewrite Hcan, Z.sub_diag. cbn [shr shr_m].
  apply Z.leb_le in Hmax. rewrite Hmax. reflexivity.
Qed.

(** An integer of at most 53 digits is a double: rounding leaves it alone. *)
Lemma binary_round_small s q k :
  (Zpos (digits2_pos q) <= 53)%Z ->
  binary_round prec emax s (shl q k) (- Z.of_nat k)
  = S754_finite s (shl q (Z.to_nat (53 - Zpos (digits2_pos q))))
                (Zpos (digits2_pos q) - 53).
Proof.
  intros Hd. set (dq := Zpos (digits2_pos q)) in *.
  assert (Hdq : (1 <= dq)%Z) by (unfold dq; lia).
  assert (Hfe : fexp prec emax dq = (dq - 53)%Z) by (rewrite fexp_eq; lia).
  set (q' := shl q (Z.to_nat (53 - dq))).
  assert (Hq' : Zpos (digits2_pos q') = 53%Z).
  { unfold q'. rewrite shl_digits. fold dq. lia. }
  unfold binary_round. rewrite shl_digits. fold dq.
  replace (dq + Z.of_nat k + - Z.of_nat k)%Z with dq by lia.
  rewrite Hfe. unfold shl_align.
  destruct (dq - 53 - - Z.of_nat k)%Z as [| p | p] eqn:Ht.
  - replace (shl q k) with (shl q' 0).
    2:{ unfold q'. rewrite shl_shl. f_equal. lia. }
    rewrite binary_round_aux_shift.
    + f_equal. lia.
    + rewrite Hq'. replace (53 + (- Z.of_nat k + Z.of_nat 0))%Z with dq by lia.
      rewrite Hfe. lia.
    + unfold emax, prec. lia.
  - replace (shl q k) with (shl q' (Pos.to_nat p)).
    2:{ unfold q'. rewrite shl_shl. f_equal. lia. }
    rewrite binary_round_aux_shift.
    + f_equal. lia.
    + rewrite Hq'.
      replace (53 + (- Z.of_nat k + Z.of_nat (Pos.to_nat p)))%Z with dq by lia.
      rewrite Hfe. lia.
    + unfold emax, prec. lia.
  - rewrite pos_iter_shl, shl_shl.
    replace (Pos.to_nat p + k)%nat with (Z.to_nat (53 - dq)) by lia.
    fold q'. change q' with (shl q' 0) at 1.
    rewrite binary_round_aux_shift.
    + f_equal. lia.
    + rewrite Hq'. replace (53 + (dq - 53 + Z.of_nat 0))%Z with dq by lia.
      rewrite Hfe. lia.
    + unfold emax, prec. lia.
Qed.

(** Rounding an integer gives an integer. *)
Lemma binary_round_integral s q k :
  is_integral (binary_round prec emax s (shl q k) (- Z.of_nat k)) = true.
Proof.
  set (dq := Zpos (digits2_pos q)).
  destruct (Z_le_gt_dec dq 53) as [Hd | Hd].
  - rewrite binary_round_small by exact Hd. fold dq.
    replace (53 - dq)%Z with (- (dq - 53))%Z by lia.
    apply is_integral_shl. lia.
  - assert (Hfe : fexp prec emax dq = (dq - 53)%Z) by (rewrite fexp_eq; lia).
    unfold binary_round. rewrite shl_digits. fold dq.
    replace (dq + Z.of_nat k + - Z.of_nat k)%Z with dq by lia.
    rewrite Hfe. unfold shl_align.
    destruct (dq - 53 - - Z.of_nat k)%Z as [| p | p] eqn:Ht; try lia.
    destruct (binary_round_aux prec emax s (Zpos (shl q k)) (- Z.of_nat k)
                loc_Exact) as [s' | s' | | s' m' e'] eqn:Hr; try reflexivity.
    apply binary_round_aux_exponent in Hr.
    unfold shr_fexp in Hr. cbn [Zdigits2] in Hr.
    rewrite shl_digits in Hr. fold dq in Hr.
    replace (dq + Z.of_nat k + - Z.of_nat k)%Z with dq in Hr by lia.
    rewrite Hfe, Ht in Hr. cbn [shr snd] in Hr.
    apply is_integral_nonneg. lia.
Qed.

(** [binary_normalize] of an integer, given with [k] binary places. *)
Lemma binary_normalize_integral (n : Z) (k : nat) (szero : bool) :
  is_integral (binary_normalize prec emax (n * 2 ^ Z.of_nat k)
                                (- Z.of_nat k) szero) = true.
Proof.
  destruct n as [| q | q].
  - reflexivity.
  - rewrite <- shl_value. apply binary_round_integral.
  - replace (Z.neg q * 2 ^ Z.of_nat k)%Z with (- (Zpos q * 2 ^ Z.of_nat k))%Z
      by lia.
    rewrite <- shl_value. apply binary_round_integral.
Qed.

Lemma floor_integral (a : spec_float) : is_integral (floor a) = true.
Proof.
  destruct a as [s | s | | s m e]; try reflexivity.
  destruct e as [| p | p]; try reflexivity.
  cbn [floor].
  pose proof (binary_normalize_integral
                (cond_Zopp s (Zpos m) / Z.pow_pos 2 p) 0 s) as H.
  cbn [Z.of_nat Z.opp] in H. rewrite Z.pow_0_r, Z.mul_1_r in H. exact H.
Qed.

Lemma shl_align_value m e ez :
  (ez <= e)%Z ->
  Zpos (fst (shl_align m e ez)) = (Zpos m * 2 ^ (e - ez))%Z.
Proof.
  intros H. unfold shl_align.
  destruct (ez - e)%Z as [| d | d] eqn:Hd; cbn [fst]; try lia.
  - replace (e - ez)%Z with 0%Z by lia. cbn. lia.
  - rewrite pos_iter_shl, shl_value. f_equal. f_equal. lia.
Qed.

Lemma cond_Zopp_mul s x y : (cond_Zopp s x * y = cond_Zopp s (x * y))%Z.
Proof. destruct s; cbn [cond_Zopp]; lia. Qed.

(** The integer value of a double, scaled by [2^j]. *)
Lemma integer_value_nonneg s m e N :
  (0 <= e)%Z -> integer_value s m e = Some N ->
  N = cond_Zopp s (Zpos m * 2 ^ e).
Proof.
  intros He HN. unfold integer_value in HN.
  destruct e as [| p | p]; [congruence | congruence | lia].
Qed.

Lemma integer_value_neg s m p N :
  integer_value s m (Zneg p) = Some N ->
  Zpos m = (Zpos m / 2 ^ Zpos p * 2 ^ Zpos p)%Z /\
  N = cond_Zopp s (Zpos m / 2 ^ Zpos p).
Proof.
  unfold integer_value. rewrite Z.pow_pos_fold.
  destruct (Zpos m mod 2 ^ Zpos p =? 0)%Z eqn:Hm; [| discriminate].
  intros HN. split; [| congruence].
  apply Z.eqb_eq in Hm.
  assert (Hp : (0 < 2 ^ Zpos p)%Z) by (apply Z.pow_pos_nonneg; lia).
  pose proof (Z.div_mod (Zpos m) (2 ^ Zpos p) ltac:(lia)) as Hdm.
  rewrite Hm, Z.add_0_r in Hdm. rewrite Z.mul_comm. exact Hdm.
Qed.

Lemma integer_value_scaled s m e N (j : Z) :
  integer_value s m e = Some N -> (0 <= j)%Z -> (0 <= e + j)%Z ->
  cond_Zopp s (Zpos m * 2 ^ (e + j)) = (N * 2 ^ j)%Z.
Proof.
  intros HN Hj Hej.
  destruct (Z_le_gt_dec 0 e) as [He | He].
  - rewrite (integer_value_nonneg _ _ _ _ He HN), cond_Zopp_mul.
    f_equal. rewrite Z.pow_add_r by lia. ring.
  - destruct e as [| p | p]; try lia.
    destruct (integer_value_neg _ _ _ _ HN) as [Hm ->].
    rewrite cond_Zopp_mul. f_equal.
    rewrite Hm at 1.
    replace (2 ^ j)%Z with (2 ^ Zpos p * 2 ^ (Z.neg p + j))%Z.
    2:{ rewrite <- Z.pow_add_r by lia. f_equal. lia. }
    ring.
Qed.

Lemma literal_one : of_Q 1 = one.
Proof. reflexivity. Qed.

Lemma sub_one_integral (y : spec_float) :
  is_integral y = true -> is_integral (SFsub prec emax y one) = true.
Proof.
  destruct y as [s | s | | s m e]; try reflexivity.
  unfold is_integral at 1.
  destruct (integer_value s m e) as [N |] eqn:HN; [intros _ | discriminate].
  unfold one. cbn [SFsub].
  set (ez := Z.min e (-52)).
  assert (Hez : ez = (- Z.of_nat (Z.to_nat (- ez)))%Z) by lia.
  rewrite (shl_align_value m e ez) by lia.
  rewrite (shl_align_value 4503599627370496 (-52) ez) by lia.
  replace (e - ez)%Z with (e + - ez)%Z by lia.
  rewrite (integer_value_scaled s m e N (- ez) HN) by lia.
  cbn [cond_Zopp].
  replace (Zpos 4503599627370496 * 2 ^ (-52 - ez))%Z with (2 ^ (- ez))%Z.
  2:{ change (Zpos 4503599627370496) with (2 ^ 52)%Z.
      rewrite <- Z.pow_add_r by lia. f_equal. lia. }
  replace (N * 2 ^ (- ez) - 2 ^ (- ez))%Z
    with ((N - 1) * 2 ^ Z.of_nat (Z.to_nat (- ez)))%Z.
  2:{ rewrite Z2Nat.id by lia. ring. }
  rewrite Hez at 2.
  apply binary_normalize_integral.
Qed.

Lemma max_one_integral (f : spec_float) :
  is_integral f = true -> is_integral (IEEE.max one f) = true.
Proof.
  intros Hf. unfold IEEE.max.
  destruct (SFcompare one f) as [[| |] |]; try reflexivity.
  exact Hf.
Qed.

(** In binary64 too the exponent passed to [Math.pow] is an integer,
    an infinity or NaN, for every attempt. *)
Lemma exponent_is_integral (a : spec_float) :
  is_integral (normalizedAttempt a - literal 1)%js = true.
Proof.
  unfold normalizedAttempt.
  cbn [num_sub Math_max Math_floor literal binary64].
  rewrite literal_one.
  apply sub_one_integral, max_one_integral, floor_integral.
Qed.

(** The double of a positive integer below [2^53]. *)
Lemma of_Z_small (q : positive) :
  (Zpos (digits2_pos q) <= 53)%Z ->
  of_Z (Zpos q)
  = S754_finite false (shl q (Z.to_nat (53 - Zpos (digits2_pos q))))
                (Zpos (digits2_pos q) - 53).
Proof.
  intros Hd. unfold of_Z. cbn [binary_normalize].
  apply (binary_round_small false q 0 Hd).
Qed.

Lemma digits_bound (q : positive) : (Zpos q < 2 ^ Zpos (digits2_pos q))%Z.
Proof.
  induction q as [q IH | q IH |]; cbn [digits2_pos].
  - rewrite Pos2Z.inj_succ, Z.pow_succ_r by lia. lia.
  - rewrite Pos2Z.inj_succ, Z.pow_succ_r by lia. lia.
  - reflexivity.
Qed.

Lemma digits_lower (q : positive) :
  (2 ^ (Zpos (digits2_pos q) - 1) <= Zpos q)%Z.
Proof.
  induction q as [q IH | q IH |]; cbn [digits2_pos].
  - rewrite Pos2Z.inj_succ.
    replace (Z.succ (Zpos (digits2_pos q)) - 1)%Z
      with (Z.succ (Zpos (digits2_pos q) - 1))%Z by lia.
    rewrite Z.pow_succ_r by lia. lia.
  - rewrite Pos2Z.inj_succ.
    replace (Z.succ (Zpos (digits2_pos q)) - 1)%Z
      with (Z.succ (Zpos (digits2_pos q) - 1))%Z by lia.
    rewrite Z.pow_succ_r by lia. lia.
  - cbn. lia.
Qed.

Lemma digits_le_53 (q : positive) :
  (Zpos q < 2 ^ 53)%Z -> (Zpos (digits2_pos q) <= 53)%Z.
Proof.
  intros H. pose proof (digits_lower q) as L.
  destruct (Z_le_gt_dec (Zpos (digits2_pos q)) 53) as [| G]; [assumption |].
  assert (2 ^ 53 <= 2 ^ (Zpos (digits2_pos q) - 1))%Z
    by (apply Z.pow_le_mono_r; lia).
  lia.
Qed.

Lemma integer_value_of_Z_small (q : positive) :
  (Zpos (digits2_pos q) <= 53)%Z ->
  integer_value false (shl q (Z.to_nat (53 - Zpos (digits2_pos q))))
                (Zpos (digits2_pos q) - 53) = Some (Zpos q).
Proof.
  intros Hd. set (dq := Zpos (digits2_pos q)) in *.
  assert (Hdq : (1 <= dq)%Z) by (unfold dq; lia).
  unfold integer_value.
  destruct (dq - 53)%Z as [| p | p] eqn:He; try lia.
  - replace (53 - dq)%Z with 0%Z by lia. cbn. f_equal. lia.
  - rewrite shl_value, Z.pow_pos_fold.
    replace (Z.of_nat (Z.to_nat (53 - dq))) with (Zpos p) by lia.
    rewrite Z.mod_mul by (apply Z.pow_nonzero; lia).
    rewrite Z.div_mul by (apply Z.pow_nonzero; lia).
    reflexivity.
Qed.

Lemma floor_of_Z (q : positive) :
  (Zpos q < 2 ^ 53)%Z -> floor (of_Z (Zpos q)) = of_Z (Zpos q).
Proof.
  intros Hq. pose proof (digits_le_53 q Hq) as Hd.
  rewrite (of_Z_small q Hd) at 1.
  set (dq := Zpos (digits2_pos q)) in *.
  destruct (dq - 53)%Z as [| p | p] eqn:He.
  - rewrite (of_Z_small q Hd). fold dq. rewrite He. reflexivity.
  - lia.
  - cbn [floor cond_Zopp]. rewrite shl_value, Z.pow_pos_fold.
    replace (Z.of_nat (Z.to_nat (53 - dq))) with (Zpos p) by lia.
    rewrite Z.div_mul by (apply Z.pow_nonzero; lia).
    reflexivity.
Qed.

Lemma max_one_of_Z (q : positive) :
  (2 <= Zpos q < 2 ^ 53)%Z -> IEEE.max one (of_Z (Zpos q)) = of_Z (Zpos q).
Proof.
  intros [Hq2 Hq]. pose proof (digits_le_53 q Hq) as Hd.
  rewrite (of_Z_small q Hd).
  pose proof (digits_bound q) as Hb.
  assert (Hdq : (2 <= Zpos (digits2_pos q))%Z).
  { destruct (Z_le_gt_dec 2 (Zpos (digits2_pos q))) as [| G]; [assumption |].
    assert (Zpos (digits2_pos q) = 1)%Z by lia.
    rewrite H in Hb. cbn in Hb. lia. }
  unfold IEEE.max, one. cbn [SFcompare].
  replace (-52 ?= Zpos (digits2_pos q) - 53)%Z with Lt.
  - reflexivity.
  - symmetry. apply Z.compare_lt_iff. lia.
Qed.

Lemma sub_one_of_Z (q : positive) :
  (2 <= Zpos q < 2 ^ 53)%Z ->
  SFsub prec emax (of_Z (Zpos q)) one = of_Z (Zpos q - 1).
Proof.
  intros [Hq2 Hq]. pose proof (digits_le_53 q Hq) as Hd.
  rewrite (of_Z_small q Hd).
  pose proof (integer_value_of_Z_small q Hd) as HN.
  set (dq := Zpos (digits2_pos q)) in *.
  assert (Hdq : (1 <= dq)%Z) by (unfold dq; lia).
  set (m := shl q (Z.to_nat (53 - dq))) in *.
  unfold one. cbn [SFsub].
  replace (Z.min (dq - 53) (-52)) with (-52)%Z by lia.
  rewrite (shl_align_value m (dq - 53) (-52)) by lia.
  rewrite (shl_align_value 4503599627370496 (-52) (-52)) by lia.
  replace (dq - 53 - -52)%Z with (dq - 53 + 52)%Z by lia.
  rewrite (integer_value_scaled false m (dq - 53) (Zpos q) 52 HN) by lia.
  cbn [cond_Zopp]. rewrite Z.sub_diag, Z.pow_0_r, Z.mul_1_r.
  change (Zpos 4503599627370496) with (1 * 2 ^ 52)%Z.
  rewrite <- Z.mul_sub_distr_r.
  destruct (Zpos q - 1)%Z as [| r | r] eqn:Hr; try lia.
  change 52%Z with (Z.of_nat 52).
  rewrite <- shl_value.
  change (-52)%Z with (- Z.of_nat 52)%Z.
  cbn [binary_normalize].
  assert (Hr53 : (Zpos (digits2_pos r) <= 53)%Z) by (apply digits_le_53; lia).
  rewrite (binary_round_small false r 52 Hr53).
  rewrite (of_Z_small r Hr53). reflexivity.
Qed.

Lemma normalizedAttempt_of_Z (n : Z) :
  (1 <= n < 2 ^ 53)%Z -> normalizedAttempt (of_Z n) = of_Z n.
Proof.
  intros [H1 H2]. unfold normalizedAttempt.
  cbn [Math_max Math_floor literal binary64]. rewrite literal_one.
  destruct n as [| q | q]; try lia.
  rewrite (floor_of_Z q H2).
  destruct (Z.eq_dec (Zpos q) 1) as [-> | Hne].
  - reflexivity.
  - apply max_one_of_Z. lia.
Qed.

Lemma exponent_of_Z (n : Z) :
  (2 <= n < 2 ^ 53)%Z ->
  (normalizedAttempt (of_Z n) - literal 1)%js = of_Z (n - 1).
Proof.
  intros [H1 H2]. rewrite normalizedAttempt_of_Z by lia.
  cbn [num_sub literal binary64]. rewrite literal_one.
  destruct n as [| q | q]; try lia.
  apply sub_one_of_Z. lia.
Qed.

Lemma exponent_overflows_of_Z (k : Z) :
  (1024 <= k < 2 ^ 53)%Z -> exponent_overflows (of_Z k) = true.
Proof.
  intros [H1 H2]. destruct k as [| r | r]; try lia.
  pose proof (digits_le_53 r H2) as Hd.
  rewrite (of_Z_small r Hd). unfold exponent_overflows.
  rewrite (integer_value_of_Z_small r Hd). apply Z.leb_le. exact H1.
Qed.

(** ** Overflow *)

(** [2^k] is not a double from [k = 1024] on: it rounds to [+Infinity]. *)
Lemma binary_round_overflow (k : Z) :
  (1024 <= k)%Z -> binary_round prec emax false 1 k = pos_Infinity.
Proof.
  intros Hk.
  unfold binary_round, shl_align, fexp, emin, prec, emax.
  cbn [digits2_pos].
  assert (E1 : IntDef.Z.max (1 + k - 53) (3 - 1024 - 53) = (k - 52)%Z)
    by lia.
  assert (E2 : (k - 52 - k)%Z = Z.neg 52) by lia.
  rewrite E1, E2.
  unfold binary_round_aux, shr_fexp, fexp, emin.
  cbn [PosDef.Pos.iter Zdigits2 digits2_pos Pos.succ].
  assert (E3 : (IntDef.Z.max (53 + (k - 52) - 53) (3 - 1024 - 53)
                - (k - 52))%Z = 0%Z) by lia.
  rewrite E3.
  cbn [shr shr_record_of_loc shr_m loc_of_shr_record round_nearest_even
       Zdigits2 digits2_pos Pos.succ].
  rewrite E3.
  cbn [shr shr_record_of_loc shr_m].
  assert (E4 : (k - 52 <=? 1024 - 53)%Z = false) by lia.
  rewrite E4. reflexivity.
Qed.

Lemma pow2_overflow (x : spec_float) :
  exponent_overflows x = true -> pow2 x = pos_Infinity.
Proof.
  destruct x as [s | [|] | | s m e]; try discriminate; try reflexivity.
  unfold exponent_overflows, pow2.
  destruct (integer_value s m e) as [k |]; [| discriminate].
  intros Hk. apply Z.leb_le in Hk.
  replace (k <? -1075)%Z with false by lia.
  apply binary_round_overflow, Hk.
Qed.

Lemma mul_overflow (b : spec_float) :
  is_positive b = true -> SFmul prec emax b pos_Infinity = pos_Infinity.
Proof. destruct b as [s | [|] | | [|] m e]; try discriminate; reflexivity. Qed.

(** A positive base delay times a power of two that is out of range:
    the raw delay is [+Infinity]. *)
Lemma rawDelay_overflow (base a : spec_float) :
  is_positive base = true ->
  exponent_overflows (normalizedAttempt a - literal 1)%js = true ->
  rawDelay base a = pos_Infinity.
Proof.
  intros Hb Hx. unfold rawDelay. cbn [num_mul Math_pow2 binary64].
  rewrite (pow2_overflow _ Hx). apply mul_overflow, Hb.
Qed.

(** Every integer attempt from 1025 on overflows (the integers shown are
    those a double holds exactly). *)
Lemma large_attempt_overflows (n : Z) (base : spec_float) :
  (1025 <= n < 2 ^ 53)%Z -> is_positive base = true ->
  rawDelay base (of_Z n) = pos_Infinity.
Proof.
  intros Hn Hb. apply rawDelay_overflow; [exact Hb |].
  rewrite exponent_of_Z by lia.
  apply exponent_overflows_of_Z. lia.
Qed.

Lemma min_of_overflow (m : spec_float) :
  is_finite m = true -> IEEE.min pos_Infinity m = m.
Proof. destruct m as [s | s | | s k e]; try discriminate; reflexivity. Qed.

Lemma overflow_exceeds (m : spec_float) :
  is_finite m = true -> SFltb m pos_Infinity = true.
Proof. destruct m as [s | s | | s k e]; try discriminate; reflexivity. Qed.

Lemma SFcompare_refl_finite (s : bool) (m : positive) (e : Z) :
  SFcompare (S754_finite s m e) (S754_finite s m e) = Some Eq.
Proof.
  cbn. rewrite Z.compare_refl.
  change (Pos.compare_cont Eq m m) with (Pos.compare m m).
  rewrite Pos.compare_refl. destruct s; reflexivity.
Qed.





(** * The scenarios of the specification

    Base delay 1000, maximal delay 5000, no jitter: attempts 1, 2, 3, 4
    and 20, over exact arithmetic and over binary64. *)

Example scenario_exact :
  let run a :=
    fst (calculateExponentialBackoff a (config 1000 5000 0)
                                     (constant_world (1 # 2))) in
  (delayMs (run 1) == 1000 /\ wasCapped (run 1) = false) /\
  (delayMs (run 2) == 2000 /\ wasCapped (run 2) = false) /\
  (delayMs (run 3) == 4000 /\ wasCapped (run 3) = false) /\
  (rawDelayMs (run 4) == 8000 /\ delayMs (run 4) == 5000 /\
   wasCapped (run 4) = true) /\
  (delayMs (run 20) == 5000 /\ wasCapped (run 20) = true).
Proof. vm_compute. repeat split. Qed.

Example scenario_binary64 :
  let run a :=
    fst (calculateExponentialBackoff (of_Q a) (double_config 1000 5000 0)
                                     (double_world (of_Q (1 # 2)))) in
  (delayMs (run 1) = of_Q 1000 /\ wasCapped (run 1) = false) /\
  (delayMs (run 2) = of_Q 2000 /\ wasCapped (run 2) = false) /\
  (delayMs (run 3) = of_Q 4000 /\ wasCapped (run 3) = false) /\
  (rawDelayMs (run 4) = of_Q 8000 /\ delayMs (run 4) = of_Q 5000 /\
   wasCapped (run 4) = true) /\
  (delayMs (run 20) = of_Q 5000 /\ wasCapped (run 20) = true).
Proof. vm_compute. repeat split. Qed.

(** Jitter, at attempt 2 with factor 1/5 and the random value 1/4: the
    offset is [(2/4 - 1) * 2000 / 5 = -200]. *)
Example scenario_jitter_exact :
  let r := fst (calculateExponentialBackoff 2 (config 1000 5000 (1 # 5))
                                            (constant_world (1 # 4))) in
  jitterOffsetMs r == -200 /\ delayMs r == 1800.
Proof. vm_compute. repeat split. Qed.

(** Attempts far out of range, the largest being [+Infinity]: the raw
    delay overflows and the delay is the maximal delay. *)
Example scenario_large_attempts :
  let run a :=
    fst (calculateExponentialBackoff a (double_config 1000 5000 0)
                                     (double_world (of_Q (1 # 2)))) in
  let capped r :=
    rawDelayMs r = pos_Infinity /\ delayMs r = of_Q 5000 /\
    wasCapped r = true in
  capped (run (of_Q 1024)) /\
  capped (run (of_Z (10 ^ 6))) /\
  capped (run (of_Z (2 ^ 1023))) /\
  capped (run pos_Infinity).
Proof. vm_compute. repeat split. Qed.

(** The retry manager on doubles, with the default options. *)
Example scenario_retry_manager_binary64 :
  let m0 := new_RetryManager None in
  let s1 := waitForNextRetry m0 (double_world (of_Q (1 # 2))) in
  let s2 := waitForNextRetry (snd (fst s1)) (snd s1) in
  let s3 := waitForNextRetry (snd (fst s2)) (snd s2) in
  retryAttempt (fst (fst s1)) = of_Q 1 /\
  retryAttempt (fst (fst s2)) = of_Q 2 /\
  retryAttempt (fst (fst s3)) = of_Q 3 /\
  attemptCount (snd (fst s3)) = of_Q 3 /\
  attemptCount (reset (snd (fst s3))) = of_Q 0 /\
  timeouts (snd s3) = [of_Q 4000; of_Q 2000; of_Q 1000] /\
  random_calls (snd s3) = 3%nat.
Proof. vm_compute. repeat split. Qed.

(** * The calculator: what the configuration bounds *)

Lemma pow2_ge_1 (k : Z) : (0 <= k)%Z -> 1 <= 2 ^ k.
Proof. intros H. apply Qpower_1_le; [discriminate | exact H]. Qed.

(** The raw delay is at least the base delay. *)
Lemma rawDelay_ge_base (base a : Q) : 0 <= base -> base <= rawDelay base a.
Proof.
  intros Hb. rewrite rawDelay_exact.
  pose proof (pow2_ge_1 (Z.max 1 (Qfloor a) - 1)) as Hp.
  assert (H1 : 1 <= 2 ^ (Z.max 1 (Qfloor a) - 1)) by (apply Hp; lia).
  nra.
Qed.

Lemma capped_between (base max a : Q) :
  0 <= base ->
  Qmin base max <= cappedDelay base max a <= max.
Proof.
  intros Hb. unfold cappedDelay. cbn [Math_min Q_number].
  split.
  - apply Q.min_le_compat_r, rawDelay_ge_base, Hb.
  - apply Q.le_min_r.
Qed.

(** The delay in the jitter branch, and the offset, in closed form. *)
Lemma jitter_branch_exact
    (a : Q) (options : option (BackoffOptions Q)) (w : World Q) :
  0 < jitter_of options ->
  let r := fst (calculateExponentialBackoff a options w) in
  let c := cappedDelay (base_of options) (max_of options) a in
  let off := (next_random w * 2 - 1) * (c * jitter_of options) in
  cappedDelayMs r = c /\
  jitterOffsetMs r == off /\
  delayMs r == Qmax 0 (c + off).
Proof.
  intros Hf. cbv zeta.
  rewrite (calc_jitter_on _ _ _ (jitter_on_exact options Hf)).
  cbn [fst delayMs cappedDelayMs jitterOffsetMs new_BackoffResult].
  unfold jitterOffset.
  cbn [num_add num_sub num_mul Math_max Math_abs literal Q_number].
  assert (Habs : Qabs (jitter_of options) == jitter_of options)
    by (apply Qabs_pos; lra).
  rewrite Habs.
  split; [reflexivity |]. split; [reflexivity |].
  apply Q.max_r, Q.le_max_l.
Qed.










(** * Runs of the retry manager *)

Section RunFacts.

Context {num : Type} {NUM : JSNumber num}.

Implicit Types (this : RetryManager num) (w : World num).

(** The calculator leaves the random source and the timer log alone. *)
Lemma calc_world (a : num) (o : option (BackoffOptions num)) w :
  random_source (snd (calculateExponentialBackoff a o w)) = random_source w /\
  timeouts (snd (calculateExponentialBackoff a o w)) = timeouts w.
Proof.
  destruct (jitter_of o >? literal 0)%js eqn:E.
  - rewrite (calc_jitter_on _ _ _ E). split; reflexivity.
  - rewrite (calc_jitter_off _ _ _ E). split; reflexivity.
Qed.

Lemma waitForNextRetry_world this w :
  let s := waitForNextRetry this w in
  random_source (snd s) = random_source w /\
  timeouts (snd s) = delayMs (fst (fst s)) :: timeouts w /\
  _options (snd (fst s)) = _options this.
Proof.
  cbv zeta. rewrite waitForNextRetry_step.
  cbn [fst snd random_source timeouts _options].
  destruct (calc_world (_attemptCount this + literal 1)%js
                       (Some (_options this)) w) as [Hs Ht].
  rewrite Hs, Ht. repeat split.
Qed.

Lemma waits_S (n : nat) this w :
  waits (S n) this w =
  let s := waitForNextRetry this w in
  let t := waits n (snd (fst s)) (snd s) in
  ((fst (fst s) :: fst (fst t), snd (fst t)), snd t).
Proof.
  cbn [waits]. destruct (waitForNextRetry this w) as [[r m1] w1].
  cbn [fst snd]. destruct (waits n m1 w1) as [[rs m2] w2]. reflexivity.
Qed.


(** X5.  A run of [n] calls of [waitForNextRetry], on any manager,
    returns [n] results and waits for exactly the delays it returns, in
    the order of the calls: the timer log grows by the [delayMs] of the
    results.  The random source and the options of the manager are the
    same afterwards. *)
Theorem waits_sleep_the_delays_returned (n : nat) this w :
  let s := waits n this w in
  let results := fst (fst s) in
  length results = n /\
  timeouts (snd s) = rev (map delayMs results) ++ timeouts w /\
  random_source (snd s) = random_source w /\
  _options (snd (fst s)) = _options this.
Proof.
  revert this w. induction n as [| n IH]; intros this w.
  - cbv zeta. cbn. repeat split.
  - cbv zeta. rewrite waits_S. cbv zeta. cbn [fst snd].
    destruct (waitForNextRetry_world this w) as (Hs & Ht & Ho).
    cbv zeta in Hs, Ht, Ho.
    destruct (IH (snd (fst (waitForNextRetry this w)))
                 (snd (waitForNextRetry this w))) as (Il & It & Is & Io).
    cbv zeta in Il, It, Is, Io.
    split; [cbn [length]; rewrite Il; reflexivity |].
    split.
    { rewrite It, Ht. cbn [map rev]. rewrite <- app_assoc. reflexivity. }
    split; [rewrite Is; exact Hs | rewrite Io; exact Ho].
Qed.

Lemma waits_options (n : nat) this w :
  _options (snd (fst (waits n this w))) = _options this.
Proof.
  revert this w. induction n as [| n IH]; intros this w.
  - reflexivity.
  - rewrite waits_S. cbv zeta. cbn [fst snd]. rewrite IH.
    apply waitForNextRetry_world.
Qed.

(** X6.  [reset] after a run of any length gives back the manager the
    constructor made: the counter is 0 again and the options, all three
    given by the constructor, were never touched.  The copy of the options
    the getter [options] returns configures an identical manager. *)
Theorem reset_after_waits_is_fresh
    (n : nat) (o : option (BackoffOptions num)) w :
  let m := snd (fst (waits n (new_RetryManager o) w)) in
  reset m = new_RetryManager o /\
  new_RetryManager (Some (options m)) = new_RetryManager o /\
  options m = _options (new_RetryManager o).
Proof.
  cbv zeta. unfold reset, options. rewrite waits_options.
  repeat split.
Qed.

(** X7.  [previewNextDelay] and the call of [waitForNextRetry] that
    follows it.  The preview waits for nothing and computes at the attempt
    of the next call: both results have the same attempt, raw delay,
    capped delay and [wasCapped].  When the jitter test fails the preview
    leaves the world as it was and the two results are the same.  When it
    succeeds the preview has drawn a random value: the call that follows
    computes its offset from the next one. *)
Theorem preview_then_wait this w :
  let p := previewNextDelay this w in
  let s := waitForNextRetry this (snd p) in
  let r := fst (fst s) in
  let f := jitter_of (Some (_options this)) in
  timeouts (snd p) = timeouts w /\
  retryAttempt (fst p) = retryAttempt r /\
  rawDelayMs (fst p) = rawDelayMs r /\
  cappedDelayMs (fst p) = cappedDelayMs r /\
  wasCapped (fst p) = wasCapped r /\
  ((f >? literal 0)%js = false -> snd p = w /\ fst p = r) /\
  ((f >? literal 0)%js = true ->
   random_calls (snd p) = S (random_calls w) /\
   jitterOffsetMs (fst p) =
     jitterOffset (cappedDelayMs r) f (random_source w (random_calls w)) /\
   jitterOffsetMs r =
     jitterOffset (cappedDelayMs r) f
                  (random_source w (S (random_calls w)))).
Proof.
  cbv zeta. rewrite waitForNextRetry_step. cbn [fst snd].
  unfold previewNextDelay.
  pose (a := (_attemptCount this + literal 1)%js).
  pose (o := Some (_options this)).
  destruct (calc_fixed_fields a o w) as (Hn & Hr & Hc & Hw).
  destruct (calc_fixed_fields a o (snd (calculateExponentialBackoff a o w)))
    as (Hn' & Hr' & Hc' & Hw').
  cbv zeta in *. subst a o.
  split; [apply calc_world |].
  split; [congruence |]. split; [congruence |]. split; [congruence |].
  split; [congruence |].
  split; intros E.
  - rewrite !(calc_jitter_off _ _ _ E). cbn [snd].
    rewrite ?(calc_jitter_off _ _ _ E). split; reflexivity.
  - rewrite !(calc_jitter_on _ _ _ E). cbv zeta. cbn [snd fst].
    rewrite ?(calc_jitter_on _ _ _ E). cbv zeta.
    cbn [fst random_calls cappedDelayMs jitterOffsetMs new_BackoffResult].
    repeat split.
Qed.

End RunFacts.

(** ** Runs over exact arithmetic *)

Lemma Qplus_inject_Z_1 (c : Z) : inject_Z c + 1 = inject_Z (c + 1).
Proof.
  unfold Qplus, inject_Z. cbn [Qnum Qden Pos.mul]. f_equal. lia.
Qed.

Lemma Qmax_1_inject_Z (k : Z) : (1 <= k)%Z -> Qmax 1 (inject_Z k) = inject_Z k.
Proof.
  intros H. unfold Qmax, GenericMinMax.gmax.
  destruct (1 ?= inject_Z k) eqn:E; try reflexivity.
  - apply Qeq_alt in E. unfold Qeq in E. cbn [Qnum Qden inject_Z] in E.
    replace k with 1%Z by lia. reflexivity.
  - apply Qgt_alt in E. change 1 with (inject_Z 1) in E.
    rewrite <- Zlt_Qlt in E. lia.
Qed.

Lemma normalizedAttempt_inject_Z (k : Z) :
  (1 <= k)%Z -> normalizedAttempt (inject_Z k) = inject_Z k.
Proof.
  intros H. unfold normalizedAttempt.
  cbn [Math_max Math_floor literal Q_number].
  rewrite Qfloor_Z. apply Qmax_1_inject_Z, H.
Qed.

(** A run that starts at the counter [c]. *)
Lemma waits_from (n : nat) (c : nat) (o : option (BackoffOptions Q))
    (w : World Q) :
  let m := {| _attemptCount := inject_Z (Z.of_nat c);
              _options := _options (new_RetryManager o) |} in
  let s := waits n m w in
  _attemptCount (snd (fst s)) = inject_Z (Z.of_nat (c + n)) /\
  map retryAttempt (fst (fst s)) =
    map (fun k => inject_Z (Z.of_nat k)) (seq (S c) n) /\
  (jitter_of o <= 0 ->
   fst (fst s) =
     map (fun k => fst (calculateExponentialBackoff
                          (inject_Z (Z.of_nat k)) o w))
         (seq (S c) n) /\
   random_calls (snd s) = random_calls w).
Proof.
  revert c w. induction n as [| n IH]; intros c w.
  - cbv zeta. cbn [waits fst snd _attemptCount map seq].
    rewrite Nat.add_0_r. repeat split.
  - cbv zeta. rewrite waits_S. cbv zeta. cbn [fst snd].
    rewrite waitForNextRetry_step. cbv zeta.
    cbn [fst snd _attemptCount _options literal Q_number num_add].
    rewrite Qplus_inject_Z_1.
    replace (Z.of_nat c + 1)%Z with (Z.of_nat (S c)) by lia.
    set (a := inject_Z (Z.of_nat (S c))).
    set (c1 := calculateExponentialBackoff
                 a (Some (_options (new_RetryManager o))) w).
    set (w1 := {| random_source := random_source (snd c1);
                  random_calls := random_calls (snd c1);
                  timeouts := delayMs (fst c1) :: timeouts (snd c1) |}).
    destruct (IH (S c) w1) as (Ic & Ia & Ij). cbv zeta in Ic, Ia, Ij.
    fold a in Ic, Ia, Ij.
    assert (Ec1 : c1 = calculateExponentialBackoff a o w) by reflexivity.
    split; [rewrite Ic; f_equal; lia |].
    split.
    { cbn [map seq]. rewrite Ia. f_equal.
      destruct (calc_fixed_fields a (Some (_options (new_RetryManager o))) w)
        as (Hn & _).
      cbv zeta in Hn. fold c1 in Hn. rewrite Hn.
      apply normalizedAttempt_inject_Z. lia. }
    intros Hf. destruct (Ij Hf) as [Ir Iw].
    pose proof (jitter_off_exact o Hf) as E.
    assert (Hsnd : snd c1 = w).
    { rewrite Ec1, (calc_jitter_off _ _ _ E). reflexivity. }
    split.
    + cbn [map seq]. rewrite Ir. f_equal.
      apply map_ext. intros k.
      rewrite !(calc_jitter_off _ _ _ E). reflexivity.
    + rewrite Iw. unfold w1. cbn [random_calls]. rewrite Hsnd. reflexivity.
Qed.

(** X8.  On a manager fresh from the constructor, whatever options it
    was given, a run of [n] calls leaves the counter at [n] and returns
    the attempts 1, 2, ..., [n].  With the jitter disabled the results are
    those of [calculateExponentialBackoff] at the attempts 1 to [n] with
    the options given to the constructor (whose defaults are those of the
    calculator), and no random value is drawn. *)
Theorem waits_are_the_attempts_in_order
    (n : nat) (o : option (BackoffOptions Q)) (w : World Q) :
  let s := waits n (new_RetryManager o) w in
  attemptCount (snd (fst s)) = inject_Z (Z.of_nat n) /\
  map retryAttempt (fst (fst s)) =
    map (fun k => inject_Z (Z.of_nat k)) (seq 1 n) /\
  (jitter_of o <= 0 ->
   fst (fst s) =
     map (fun k => fst (calculateExponentialBackoff
                          (inject_Z (Z.of_nat k)) o w))
         (seq 1 n) /\
   random_calls (snd s) = random_calls w).
Proof.
  cbv zeta. unfold attemptCount.
  destruct (waits_from n 0 o w) as (Hc & Ha & Hj).
  cbv zeta in Hc, Ha, Hj.
  split; [exact Hc |]. split; [exact Ha | exact Hj].
Qed.




(** * The text of a result *)




Section TextFacts.

Context {num : Type} {NUM : JSNumber num} {TXT : JSNumberText num}.






End TextFacts.



(** * The timer factory *)

Section FactoryFacts.

Context {num : Type} {NUM : JSNumber num} {TXT : JSNumberText num}.

Implicit Types (k : Runtime num) (this : BackoffTimerFactory num).

(** [create], in terms of the calculator: the options are spread, the
    calculator runs on the three inherited fields, the line is written if
    asked for, and the observable is made from the delay. *)
Lemma create_unfold this (retryCount : num)
    (overrideOptions : option (PartialBackoffTimerOptions num)) k :
  let o := spread (this_options this) overrideOptions in
  let c := calculateExponentialBackoff
             retryCount (Some (backoffOptions o)) (world k) in
  let d := delayMs (fst c) in
  create this retryCount overrideOptions k =
    (if truthy (emitDelay o) then new_Observable d (timer d) else timer d,
     {| world := snd c;
        console :=
          if truthy (enableDebugLogs o)
          then ("[exponential-backoff-timer] " ++ toString (fst c))%string
               :: console k
          else console k |}).
Proof.
  cbv zeta. unfold create, io_bind, run, io_ret, console_debug.
  set (o := spread (this_options this) overrideOptions).
  change (calculateExponentialBackoff retryCount
            (Some {| baseDelayMs := baseDelayMs (backoffOptions o);
                     maxDelayMs := maxDelayMs (backoffOptions o);
                     jitterFactor := jitterFactor (backoffOptions o) |})
            (world k))
    with (calculateExponentialBackoff retryCount
            (Some (backoffOptions o)) (world k)).
  destruct (calculateExponentialBackoff retryCount
              (Some (backoffOptions o)) (world k)) as [r w'].
  cbn [fst snd world console].
  destruct (truthy (enableDebugLogs o)), (truthy (emitDelay o));
    reflexivity.
Qed.



(** [create] with overrides, as [create] on a fresh factory. *)
Lemma create_fresh this (retryCount : num)
    (overrideOptions : option (PartialBackoffTimerOptions num)) k :
  create this retryCount overrideOptions k
  = create (new_BackoffTimerFactory
              (Some (spread (this_options this) overrideOptions)))
           retryCount None k.
Proof.
  rewrite !create_unfold. cbv zeta.
  generalize (spread (this_options this) overrideOptions). intros m.
  cbn [spread this_options new_BackoffTimerFactory emitDelay
       enableDebugLogs truthy].
  destruct (emitDelay m) as [[|] |], (enableDebugLogs m) as [[|] |];
    reflexivity.
Qed.

(** X12.  Overrides.  [create(retryCount, overrideOptions)] on a factory
    behaves as a fresh [createBackoffTimer] whose options are those of the
    factory with the properties present in [overrideOptions] put over
    them.  A property that is missing leaves the value of the factory; one
    that is present with a value replaces it; one that is present and
    holds [undefined] does not fall back to the value of the factory but to
    the built-in default (1000, 5000, 1/5, or false). *)
Theorem create_with_overrides
    (retryCount : num) (options' : option (BackoffTimerOptions num))
    (overrideOptions : PartialBackoffTimerOptions num) k :
  let factory := new_BackoffTimerFactory options' in
  let own := this_options factory in
  let merged := spread own (Some overrideOptions) in
  let pick {A : Type} (override : Property A) (kept builtin : A) : A :=
    match override with
    | missing => kept
    | present None => builtin
    | present (Some x) => x
    end in
  create factory retryCount (Some overrideOptions) k
  = createBackoffTimer retryCount (Some merged) k /\
  base_of (Some (backoffOptions merged))
  = pick (override_baseDelayMs overrideOptions)
         (base_of (Some (backoffOptions own))) (literal 1000) /\
  max_of (Some (backoffOptions merged))
  = pick (override_maxDelayMs overrideOptions)
         (max_of (Some (backoffOptions own))) (literal 5000) /\
  jitter_of (Some (backoffOptions merged))
  = pick (override_jitterFactor overrideOptions)
         (jitter_of (Some (backoffOptions own))) (literal (1 # 5)) /\
  truthy (emitDelay merged)
  = pick (override_emitDelay overrideOptions)
         (truthy (emitDelay own)) false /\
  truthy (enableDebugLogs merged)
  = pick (override_enableDebugLogs overrideOptions)
         (truthy (enableDebugLogs own)) false.
Proof.
  cbv zeta. split.
  - apply create_fresh.
  - destruct overrideOptions as [[| [b |]] [| [m |]] [| [j |]]
                                   [| [e |]] [| [d |]]];
      repeat split.
Qed.

(** X13.  [debugBackoffDelay] is the delay function of the default
    options with one line of debug output added: it returns the same
    observable as [createBackoffTimer(retryCount)], a plain timer on the
    calculated delay, leaves the world the same, and writes exactly one
    line, the text of the result after the tag, where
    [createBackoffTimer(retryCount)] writes none. *)
Theorem debugBackoffDelay_is_the_default_timer_with_a_log
    {E : Type} (error : E) (retryCount : num) k :
  let s := debugBackoffDelay error retryCount k in
  let t := createBackoffTimer retryCount None k in
  let r := fst (calculateExponentialBackoff retryCount None (world k)) in
  fst s = fst t /\
  fst s = timer (delayMs r) /\
  world (snd s) = world (snd t) /\
  console (snd t) = console k /\
  console (snd s) =
    ("[exponential-backoff-timer] " ++ toString r)%string :: console k.
Proof.
  cbv zeta.
  unfold debugBackoffDelay, createBackoffDelayFunction, createBackoffTimer.
  rewrite !create_unfold. cbv zeta. repeat split.
Qed.

(** X14.  The options of a factory are complete and survive a round trip:
    [getOptions()] returns all five fields, and a factory constructed from
    that copy is the same factory. *)
Theorem getOptions_round_trip (options' : option (BackoffTimerOptions num)) :
  let factory := new_BackoffTimerFactory options' in
  new_BackoffTimerFactory (Some (getOptions factory)) = factory /\
  getOptions factory = this_options factory /\
  exists (b m j : num) (e d : bool),
    getOptions factory =
      {| backoffOptions :=
           {| baseDelayMs := Some b; maxDelayMs := Some m;
              jitterFactor := Some j |};
         emitDelay := Some e; enableDebugLogs := Some d |}.
Proof.
  cbv zeta. split; [reflexivity |]. split; [reflexivity |].
  do 5 eexists. reflexivity.
Qed.

End FactoryFacts.

(** ** The timer and the formula it replaces *)

(** The options that switch the jitter off and leave the rest to the
    defaults. *)
Lemma timer_without_jitter (show : Q -> String.string) (a : Q)
    (k : Runtime Q) :
  let plain :=
    Some {| backoffOptions :=
              {| baseDelayMs := None; maxDelayMs := None;
                 jitterFactor := Some 0 |};
            emitDelay := None; enableDebugLogs := None |} in
  fst (@createBackoffTimer Q Q_number (Q_text show) a plain k)
  = timer (Qmax 0 (cappedDelay 1000 5000 a)).
Proof.
  cbv zeta. unfold createBackoffTimer. rewrite create_unfold. reflexivity.
Qed.

Lemma timer_with_defaults (show : Q -> String.string) (a : Q)
    (k : Runtime Q) :
  fst (@createBackoffTimer Q Q_number (Q_text show) a None k)
  = timer (delayMs (fst (calculateExponentialBackoff a None (world k)))).
Proof.
  unfold createBackoffTimer. rewrite create_unfold. reflexivity.
Qed.

(** X15.  The module replaces
    [timer(Math.min(1000 * Math.pow(2, retryCount - 1), 5000))].  For an
    integer retry count [n >= 1], [createBackoffTimer] with the jitter
    factor 0 returns the timer on exactly that delay, and with the default
    options (jitter factor 1/5, random value in [[0,1)]) a timer on a delay
    within a fifth of it.  For an integer retry count [n <= 0] it is not
    the old formula: the timer waits 1000, the base delay, where the old
    formula gives less. *)
Theorem timer_matches_the_formula_it_replaces
    (show : Q -> String.string) (a : Q) (n : Z) (k : Runtime Q) :
  a == inject_Z n ->
  let old := Qmin (1000 * 2 ^ (n - 1)) 5000 in
  let plain :=
    Some {| backoffOptions :=
              {| baseDelayMs := None; maxDelayMs := None;
                 jitterFactor := Some 0 |};
            emitDelay := None; enableDebugLogs := None |} in
  let create := @createBackoffTimer Q Q_number (Q_text show) a in
  ((1 <= n)%Z ->
   exists d : Q, fst (create plain k) = timer d /\ d == old) /\
  ((1 <= n)%Z -> 0 <= next_random (world k) < 1 ->
   exists d : Q, fst (create None k) = timer d /\
                 (4 # 5) * old <= d <= (6 # 5) * old) /\
  ((n <= 0)%Z ->
   exists d : Q, fst (create plain k) = timer d /\ d == 1000 /\ old < d).
Proof.
  intros Ha. cbv zeta.
  assert (Hc : cappedDelay 1000 5000 a
               == Qmin (1000 * 2 ^ (Z.max 1 n - 1)) 5000).
  { rewrite cappedDelay_exact, (floor_of_integer _ _ Ha). reflexivity. }
  assert (Hpos : 0 < cappedDelay 1000 5000 a)
    by (apply capped_positive; reflexivity).
  split; [| split].
  - intros Hn. eexists. split; [apply timer_without_jitter |].
    rewrite (Q.max_r 0 _ (Qlt_le_weak _ _ Hpos)), Hc.
    replace (Z.max 1 n) with n by lia. reflexivity.
  - intros Hn Hu. eexists. split; [apply timer_with_defaults |].
    assert (Hf : 0 < jitter_of (@None (BackoffOptions Q))) by reflexivity.
    destruct (jitter_branch_exact a None (world k) Hf) as (_ & _ & Ed).
    cbv zeta in Ed. rewrite Ed.
    change (base_of None) with 1000. change (max_of None) with 5000.
    change (jitter_of None) with (1 # 5).
    replace (Z.max 1 n) with n in Hc by lia. rewrite <- Hc.
    set (c := cappedDelay 1000 5000 a) in *.
    destruct (offset_bounds c (1 # 5) (next_random (world k))
                (Qlt_le_weak _ _ Hpos) eq_refl Hu) as [[Ol Oh] _].
    split.
    + apply Qle_trans with (c + (next_random (world k) * 2 - 1)
                                * (c * (1 # 5)));
        [lra | apply Q.le_max_r].
    + apply Q.max_lub; lra.
  - intros Hn. eexists. split; [apply timer_without_jitter |].
    rewrite (Q.max_r 0 _ (Qlt_le_weak _ _ Hpos)), Hc.
    replace (Z.max 1 n) with 1%Z by lia.
    change (Qmin (1000 * 2 ^ (1 - 1)) 5000) with (Qmin (1000 * 1) 5000).
    assert (H1 : Qmin (1000 * 1) 5000 == 1000) by reflexivity.
    split; [exact H1 |]. rewrite H1.
    apply Q.min_lt_iff. left.
    assert (Hp : 2 ^ (n - 1) < 1).
    { destruct (n - 1)%Z as [| p | p] eqn:Ep; try lia.
      change (2 ^ Z.neg p) with (/ (2 ^ Z.pos p)).
      assert (H2 : 2 <= 2 ^ Z.pos p).
      { change 2 with (2 ^ 1) at 1.
        apply Qpower_le_compat_l; [lia | discriminate]. }
      apply Qlt_shift_inv_r; lra. }
    lra.
Qed.

Lemma timer_matches_the_formula_it_replaces_witness :
  let k := {| world := constant_world (1 # 2); console := [] |} in
  let plain :=
    Some {| backoffOptions :=
              {| baseDelayMs := None; maxDelayMs := None;
                 jitterFactor := Some 0 |};
            emitDelay := None; enableDebugLogs := None |} in
  3 == inject_Z 3 /\ (1 <= 3)%Z /\
  exists d : Q,
    fst (@createBackoffTimer Q Q_number (Q_text (fun _ => ""%string))
                             3 plain k) = timer d /\
    d == Qmin (1000 * 2 ^ (3 - 1)) 5000.
Proof.
  cbv zeta.
  assert (Ha : 3 == inject_Z 3) by reflexivity.
  assert (Hn : (1 <= 3)%Z) by lia.
  split; [exact Ha | split; [exact Hn |]].
  exact (proj1 (timer_matches_the_formula_it_replaces
                  (fun _ => ""%string) 3 3
                  {| world := constant_world (1 # 2); console := [] |} Ha)
               Hn).
Defined.

(** * Binary64: special values *)

(** ** The sign of a rounded number *)

Lemma shr_1_nonneg (mrs : shr_record) :
  (0 <= shr_m mrs)%Z -> (0 <= shr_m (shr_1 mrs))%Z.
Proof.
  destruct mrs as [[| [p | p |] | p] r s]; cbn; intros H; lia.
Qed.

Lemma iter_pos_shr_1_nonneg (p : positive) (mrs : shr_record) :
  (0 <= shr_m mrs)%Z -> (0 <= shr_m (iter_pos shr_1 p mrs))%Z.
Proof.
  revert mrs. induction p as [p IH | p IH |]; intros mrs H; cbn [iter_pos].
  - apply IH, IH, shr_1_nonneg, H.
  - apply IH, IH, H.
  - apply shr_1_nonneg, H.
Qed.

Lemma shr_fexp_nonneg (m e : Z) (l : location) :
  (0 <= m)%Z -> (0 <= shr_m (fst (shr_fexp prec emax m e l)))%Z.
Proof.
  intros H. unfold shr_fexp, shr.
  assert (H0 : (0 <= shr_m (shr_record_of_loc m l))%Z)
    by (destruct l as [| []]; exact H).
  destruct (fexp prec emax (Zdigits2 m + e) - e)%Z; cbn [fst];
    [exact H0 | apply iter_pos_shr_1_nonneg, H0 | exact H0].
Qed.

Lemma round_nearest_even_nonneg (m : Z) (l : location) :
  (0 <= m)%Z -> (0 <= round_nearest_even m l)%Z.
Proof.
  intros H. destruct l as [| []]; cbn [round_nearest_even];
    try destruct (Z.even m); lia.
Qed.

(** Rounding keeps the sign and never gives NaN. *)
Lemma binary_round_aux_sign (s : bool) (m e : Z) (l : location) :
  (0 <= m)%Z -> has_sign s (binary_round_aux prec emax s m e l) = true.
Proof.
  intros H. unfold binary_round_aux.
  pose proof (shr_fexp_nonneg m e l H) as H1.
  destruct (shr_fexp prec emax m e l) as [mrs1 e1]. cbn [fst] in H1.
  pose proof (round_nearest_even_nonneg _ (loc_of_shr_record mrs1) H1) as H2.
  pose proof (shr_fexp_nonneg _ e1 loc_Exact H2) as H3.
  destruct (shr_fexp prec emax _ e1 loc_Exact) as [mrs2 e2].
  cbn [fst] in H3.
  destruct (shr_m mrs2) as [| q | q]; [| | lia].
  - apply eqb_reflx.
  - destruct (e2 <=? emax - prec)%Z; apply eqb_reflx.
Qed.

Lemma binary_round_sign (s : bool) (m : positive) (e : Z) :
  has_sign s (binary_round prec emax s m e) = true.
Proof.
  unfold binary_round.
  destruct (shl_align m e _) as [mz ez].
  apply binary_round_aux_sign. lia.
Qed.

Lemma binary_normalize_sign (z e : Z) (szero : bool) :
  has_sign (if (z =? 0)%Z then szero else (z <? 0)%Z)
           (binary_normalize prec emax z e szero) = true.
Proof.
  destruct z as [| q | q]; cbn [binary_normalize Z.eqb Z.ltb Z.compare].
  - apply eqb_reflx.
  - apply binary_round_sign.
  - apply binary_round_sign.
Qed.

Lemma has_sign_not_NaN (s : bool) (x : spec_float) :
  has_sign s x = true -> is_NaN x = false.
Proof.
  destruct x; [reflexivity | reflexivity | discriminate | reflexivity].
Qed.

(** ** The delay is NaN or not negative *)

Lemma literal_zero : of_Q 0 = S754_zero false.
Proof. reflexivity. Qed.

Lemma max_zero_cases (x : spec_float) :
  IEEE.max (S754_zero false) x = NaN \/
  IEEE.max (S754_zero false) x = S754_zero false \/
  is_positive (IEEE.max (S754_zero false) x) = true.
Proof.
  destruct x as [s | [|] | | [|] m e]; cbn; auto.
Qed.

(** X16.  In binary64, for every attempt, every options object and every
    random value, NaN and the infinities included, the [delayMs] returned
    is NaN, or [+0], or a positive number or [+Infinity]: it is never
    negative and never [-0]. *)
Theorem delay_is_NaN_or_not_negative
    (a : spec_float) (options : option (BackoffOptions spec_float))
    (w : World spec_float) :
  let d := delayMs (fst (calculateExponentialBackoff a options w)) in
  d = NaN \/ d = S754_zero false \/ is_positive d = true.
Proof.
  cbv zeta.
  destruct (jitter_of options >? literal 0)%js eqn:E.
  - rewrite (calc_jitter_on _ _ _ E). cbv zeta.
    cbn [fst delayMs new_BackoffResult Math_max literal binary64].
    rewrite literal_zero. apply max_zero_cases.
  - rewrite (calc_jitter_off _ _ _ E).
    cbn [fst delayMs new_BackoffResult Math_max literal binary64].
    rewrite literal_zero. apply max_zero_cases.
Qed.

(** ** A NaN attempt *)

Lemma mul_NaN (x : spec_float) : SFmul prec emax x NaN = NaN.
Proof. destruct x; reflexivity. Qed.

Lemma max_NaN (x : spec_float) : IEEE.max x NaN = NaN.
Proof. destruct x; reflexivity. Qed.

Lemma add_NaN (x : spec_float) : SFadd prec emax NaN x = NaN.
Proof. destruct x; reflexivity. Qed.

(** X17.  In binary64 a NaN attempt is not normalized to attempt 1: it
    goes through [Math.floor] and [Math.max], and for every options object
    the result has [retryAttempt], [rawDelayMs], [cappedDelayMs] and
    [delayMs] all NaN, and [wasCapped] false. *)
Theorem NaN_attempt_gives_NaN_delay
    (options : option (BackoffOptions spec_float)) (w : World spec_float) :
  let r := fst (calculateExponentialBackoff NaN options w) in
  retryAttempt r = NaN /\ rawDelayMs r = NaN /\ cappedDelayMs r = NaN /\
  delayMs r = NaN /\ wasCapped r = false.
Proof.
  cbv zeta.
  assert (Hn : normalizedAttempt NaN = NaN) by reflexivity.
  assert (Hr : forall b, rawDelay b NaN = NaN).
  { intros b. unfold rawDelay. rewrite Hn.
    cbn [num_sub num_mul Math_pow2 literal binary64].
    change (pow2 (SFsub prec emax NaN (of_Q 1))) with NaN.
    apply mul_NaN. }
  assert (Hc : forall b m, cappedDelay b m NaN = NaN).
  { intros b m. unfold cappedDelay. rewrite Hr. reflexivity. }
  destruct (jitter_of options >? literal 0)%js eqn:E.
  - rewrite (calc_jitter_on _ _ _ E). cbv zeta.
    cbn [fst retryAttempt rawDelayMs cappedDelayMs delayMs wasCapped
         new_BackoffResult].
    rewrite Hn, Hr, Hc. unfold jitterOffset.
    cbn [num_add num_mul num_gt Math_max Math_abs binary64].
    assert (Hm : SFmul prec emax NaN (SFabs (jitter_of options)) = NaN)
      by reflexivity.
    rewrite Hm, mul_NaN, add_NaN, !max_NaN. repeat split.
  - rewrite (calc_jitter_off _ _ _ E).
    cbn [fst retryAttempt rawDelayMs cappedDelayMs delayMs wasCapped
         new_BackoffResult].
    rewrite Hn, Hr, Hc. cbn [num_gt Math_max binary64].
    rewrite max_NaN. repeat split.
Qed.

(** ** Finite delays *)

Lemma floor_not_NaN (a : spec_float) :
  is_NaN a = false -> is_NaN (floor a) = false.
Proof.
  destruct a as [s | s | | s m [| p | p]]; try (intros H; exact H).
  intros _. cbn [floor].
  exact (has_sign_not_NaN _ _ (binary_normalize_sign _ 0 s)).
Qed.

Lemma max_one_not_NaN (f : spec_float) :
  is_NaN f = false -> is_NaN (IEEE.max one f) = false.
Proof.
  destruct f as [s | [|] | | [|] m e]; try discriminate; try reflexivity.
  intros _. unfold IEEE.max, one. cbn [SFcompare].
  destruct (-52 ?= e)%Z; try reflexivity.
  destruct (Pos.compare_cont Eq 4503599627370496 m); reflexivity.
Qed.

Lemma sub_one_not_NaN (y : spec_float) :
  is_NaN y = false -> is_NaN (SFsub prec emax y one) = false.
Proof.
  destruct y as [s | s | | s m e]; try discriminate; try reflexivity.
  intros _. unfold one. cbn [SFsub].
  exact (has_sign_not_NaN _ _ (binary_normalize_sign _ _ false)).
Qed.

(** The exponent passed to [Math.pow] is NaN for a NaN attempt only. *)
Lemma exponent_not_NaN (a : spec_float) :
  is_NaN a = false -> is_NaN (normalizedAttempt a - literal 1)%js = false.
Proof.
  intros H. unfold normalizedAttempt.
  cbn [num_sub Math_max Math_floor literal binary64].
  rewrite literal_one.
  apply sub_one_not_NaN, max_one_not_NaN, floor_not_NaN, H.
Qed.

(** A power of two is [+0], positive or [+Infinity]. *)
Lemma pow2_sign (x : spec_float) :
  is_NaN x = false -> is_integral x = true -> has_sign false (pow2 x) = true.
Proof.
  destruct x as [s | [|] | | s m e]; try discriminate; try reflexivity.
  intros _. unfold is_integral, pow2.
  destruct (integer_value s m e) as [k |]; [| discriminate].
  intros _. destruct (k <? -1075)%Z; [reflexivity |].
  apply binary_round_sign.
Qed.

Lemma mul_positive_sign (b p : spec_float) :
  is_positive_finite b = true -> has_sign false p = true ->
  has_sign false (SFmul prec emax b p) = true.
Proof.
  destruct b as [s | s | | [|] mb eb]; try discriminate. intros _.
  destruct p as [[|] | [|] | | [|] mp ep]; try discriminate;
    try reflexivity.
  intros _. cbn [SFmul xorb]. apply binary_round_aux_sign. lia.
Qed.

(** The raw delay of a positive finite base delay, for an attempt that is
    not NaN. *)
Lemma rawDelay_sign (base a : spec_float) :
  is_positive_finite base = true -> is_NaN a = false ->
  has_sign false (rawDelay base a) = true.
Proof.
  intros Hb Ha. unfold rawDelay. cbn [num_mul Math_pow2 binary64].
  apply mul_positive_sign; [exact Hb |].
  apply pow2_sign; [apply exponent_not_NaN, Ha | apply exponent_is_integral].
Qed.

Lemma min_with_positive_finite (raw m : spec_float) :
  has_sign false raw = true -> is_positive_finite m = true ->
  let c := IEEE.min raw m in
  is_finite c = true /\ has_sign false c = true /\ SFleb c m = true.
Proof.
  destruct m as [s | s | | [|] mm em]; try discriminate. intros Hr _.
  pose proof (SFcompare_refl_finite false mm em) as Hrefl.
  destruct raw as [[|] | [|] | | [|] mr er]; try discriminate; cbv zeta.
  - repeat split.
  - unfold IEEE.min. cbn [SFcompare]. unfold SFleb. rewrite Hrefl.
    repeat split.
  - unfold IEEE.min, SFleb.
    destruct (SFcompare (S754_finite false mr er) (S754_finite false mm em))
      as [[| |] |] eqn:C;
      [| | | cbn in C; discriminate];
      rewrite ?C, ?Hrefl; repeat split.
Qed.

Lemma max_zero_of_nonneg (c : spec_float) :
  is_finite c = true -> has_sign false c = true ->
  IEEE.max (S754_zero false) c = c.
Proof.
  destruct c as [[|] | s | | [|] m e]; try discriminate; reflexivity.
Qed.

(** X18.  In binary64, with a base delay and a maximal delay that are
    positive finite numbers and the jitter test false, every attempt that
    is not NaN (the infinities, the negative numbers and the attempts whose
    power of two overflows included) gets a [delayMs] that is a finite
    number, not negative, at most the maximal delay and equal to the
    capped delay; the raw delay is [+0], positive or [+Infinity], never
    NaN. *)
Theorem plain_delay_is_finite
    (a : spec_float) (options : option (BackoffOptions spec_float))
    (w : World spec_float) :
  is_NaN a = false ->
  is_positive_finite (base_of options) = true ->
  is_positive_finite (max_of options) = true ->
  (jitter_of options >? literal 0)%js = false ->
  let r := fst (calculateExponentialBackoff a options w) in
  has_sign false (rawDelayMs r) = true /\
  is_finite (delayMs r) = true /\
  has_sign false (delayMs r) = true /\
  SFleb (delayMs r) (max_of options) = true /\
  delayMs r = cappedDelayMs r.
Proof.
  intros Ha Hb Hm E. cbv zeta.
  rewrite (calc_jitter_off _ _ _ E).
  cbn [fst rawDelayMs delayMs cappedDelayMs new_BackoffResult Math_max
       literal binary64].
  rewrite literal_zero.
  pose proof (rawDelay_sign (base_of options) a Hb Ha) as Hraw.
  unfold cappedDelay. cbn [Math_min binary64].
  destruct (min_with_positive_finite _ _ Hraw Hm) as (Hf & Hs & Hle).
  cbv zeta in Hf, Hs, Hle.
  rewrite (max_zero_of_nonneg _ Hf Hs).
  repeat split; assumption.
Qed.

Lemma plain_delay_is_finite_witness :
  let o := double_config 1000 5000 0 in
  let w := double_world (of_Q 0) in
  is_NaN neg_Infinity = false /\
  is_positive_finite (base_of o) = true /\
  is_positive_finite (max_of o) = true /\
  (jitter_of o >? literal 0)%js = false /\
  is_finite (delayMs (fst (calculateExponentialBackoff neg_Infinity o w)))
  = true.
Proof.
  cbv zeta.
  assert (Ha : is_NaN neg_Infinity = false) by reflexivity.
  assert (Hb : is_positive_finite (base_of (double_config 1000 5000 0))
               = true) by reflexivity.
  assert (Hm : is_positive_finite (max_of (double_config 1000 5000 0))
               = true) by reflexivity.
  assert (E : (jitter_of (double_config 1000 5000 0) >? literal 0)%js
              = false) by reflexivity.
  split; [exact Ha | split; [exact Hb | split; [exact Hm |]]].
  split; [exact E |].
  exact (proj1 (proj2 (plain_delay_is_finite
                         neg_Infinity (double_config 1000 5000 0)
                         (double_world (of_Q 0)) Ha Hb Hm E))).
Defined.

(** ** Where the overflow starts *)

(** X19.  In binary64 the raw delay overflows for every integer attempt
    from 1025 on (those a double holds exactly) and for the attempt
    [+Infinity], whatever the positive base delay: the raw delay is
    [+Infinity], and with a finite maximal delay the capped delay is the
    maximal delay and [wasCapped] is true.  With the jitter test false and
    a positive maximal delay, the delay is the maximal delay. *)
Theorem attempts_from_1025_overflow
    (a : spec_float) (n : Z) (options : option (BackoffOptions spec_float))
    (w : World spec_float) :
  a = pos_Infinity \/ (1025 <= n < 2 ^ 53)%Z /\ a = of_Z n ->
  is_positive (base_of options) = true ->
  is_finite (max_of options) = true ->
  let r := fst (calculateExponentialBackoff a options w) in
  rawDelayMs r = pos_Infinity /\
  cappedDelayMs r = max_of options /\
  wasCapped r = true /\
  ((jitter_of options >? literal 0)%js = false ->
   is_positive_finite (max_of options) = true ->
   delayMs r = max_of options).
Proof.
  intros Hcases Hb Hm. cbv zeta.
  assert (Hraw : rawDelay (base_of options) a = pos_Infinity).
  { destruct Hcases as [-> | [Hn ->]].
    - apply rawDelay_overflow; [exact Hb | reflexivity].
    - apply large_attempt_overflows; assumption. }
  destruct (calc_fixed_fields a options w) as (_ & Eraw & Ecap & Ewas).
  cbv zeta in Eraw, Ecap, Ewas.
  assert (Hcap : cappedDelay (base_of options) (max_of options) a
                 = max_of options).
  { unfold cappedDelay. rewrite Hraw. apply min_of_overflow, Hm. }
  split; [rewrite Eraw; exact Hraw |].
  split; [rewrite Ecap; exact Hcap |].
  split.
  { rewrite Ewas, Eraw, Ecap, Hraw, Hcap. apply overflow_exceeds, Hm. }
  intros E Hpos. rewrite (calc_jitter_off _ _ _ E).
  cbn [fst delayMs new_BackoffResult Math_max literal binary64].
  rewrite Hcap, literal_zero.
  destruct (max_of options) as [s | s | | [|] m e]; try discriminate.
  reflexivity.
Qed.

Lemma attempts_from_1025_overflow_witness :
  let o := double_config 250 1000 0 in
  let w := double_world (of_Q 0) in
  (of_Z 1025 = pos_Infinity \/
   (1025 <= 1025 < 2 ^ 53)%Z /\ of_Z 1025 = of_Z 1025) /\
  is_positive (base_of o) = true /\ is_finite (max_of o) = true /\
  rawDelayMs (fst (calculateExponentialBackoff (of_Z 1025) o w))
  = pos_Infinity.
Proof.
  cbv zeta.
  assert (Hc : of_Z 1025 = pos_Infinity \/
               (1025 <= 1025 < 2 ^ 53)%Z /\ of_Z 1025 = of_Z 1025).
  { right. split; [lia | reflexivity]. }
  assert (Hb : is_positive (base_of (double_config 250 1000 0)) = true)
    by reflexivity.
  assert (Hm : is_finite (max_of (double_config 250 1000 0)) = true)
    by reflexivity.
  split; [exact Hc | split; [exact Hb | split; [exact Hm |]]].
  exact (proj1 (attempts_from_1025_overflow
                  (of_Z 1025) 1025 (double_config 250 1000 0)
                  (double_world (of_Q 0)) Hc Hb Hm)).
Defined.

(** ** Attempts below 2 *)

Lemma literal_two : of_Q 2 = S754_finite false 4503599627370496 (-51).
Proof. reflexivity. Qed.

Lemma max_one_negative (x : spec_float) :
  has_sign true x = true -> IEEE.max one x = one.
Proof.
  destruct x as [[|] | [|] | | [|] m e]; try discriminate; reflexivity.
Qed.

(** The floor of a negative number is negative or [-0]. *)
Lemma floor_negative (m : positive) (e : Z) :
  has_sign true (floor (S754_finite true m e)) = true.
Proof.
  destruct e as [| p | p]; try reflexivity.
  cbn [floor cond_Zopp].
  pose proof (binary_normalize_sign (- Z.pos m / Z.pow_pos 2 p) 0 true) as H.
  assert (Hz : (- Z.pos m / Z.pow_pos 2 p < 0)%Z).
  { rewrite Z.pow_pos_fold. apply Z.div_lt_upper_bound.
    - apply Z.pow_pos_nonneg; lia.
    - lia. }
  destruct (- Z.pos m / Z.pow_pos 2 p =? 0)%Z eqn:E0; [exact H |].
  apply Z.ltb_lt in Hz. rewrite Hz in H. exact H.
Qed.

(** A double in canonical form that is positive and below 2 has the
    floor [+0] or 1. *)
Lemma floor_small_positive (m : positive) (e : Z) :
  bounded prec emax m e = true ->
  SFltb (S754_finite false m e) (of_Q 2) = true ->
  floor (S754_finite false m e) = S754_zero false \/
  floor (S754_finite false m e) = one.
Proof.
  unfold bounded, canonical_mantissa. intros Hb Hlt.
  apply andb_true_iff in Hb. destruct Hb as [Hc _].
  apply Z.eqb_eq in Hc. rewrite fexp_eq in Hc.
  pose proof (digits_lower m) as Hlo. pose proof (digits_bound m) as Hhi.
  generalize dependent (Zpos (digits2_pos m)). intros d Hc Hlo Hhi.
  rewrite literal_two in Hlt. unfold SFltb in Hlt. cbn [SFcompare] in Hlt.
  assert (He : (e <= -52)%Z).
  { destruct (e ?= -51)%Z eqn:Ce; [| | discriminate Hlt].
    - apply Z.compare_eq in Ce.
      destruct (Pos.compare_cont Eq m 4503599627370496) eqn:Cm;
        [discriminate Hlt | | discriminate Hlt].
      assert (Cm' : (Zpos m < 4503599627370496)%Z) by exact Cm.
      assert (Hd : d = 53%Z) by (clear - Hc Ce; lia).
      rewrite Hd in Hlo. change (2 ^ (53 - 1))%Z with 4503599627370496%Z in Hlo.
      clear - Hlo Cm'. lia.
    - assert (Ce' : (e < -51)%Z) by exact Ce. clear - Ce'. lia. }
  assert (Hd : (d <= 53)%Z) by (clear - Hc He; lia).
  assert (Hm : (Zpos m < 2 ^ 53)%Z).
  { apply Z.lt_le_trans with (2 ^ d)%Z; [exact Hhi |].
    apply Z.pow_le_mono_r; [reflexivity | exact Hd]. }
  destruct e as [| p | p];
    [exfalso; clear - He; lia | exfalso; clear - He; lia |].
  cbn [floor cond_Zopp]. rewrite Z.pow_pos_fold.
  assert (Hp : (2 ^ 52 <= 2 ^ Zpos p)%Z).
  { apply Z.pow_le_mono_r; [reflexivity | clear - He; lia]. }
  change (2 ^ 53)%Z with 9007199254740992%Z in Hm.
  change (2 ^ 52)%Z with 4503599627370496%Z in Hp.
  assert (H2p : (0 < 2 ^ Zpos p)%Z) by (clear - Hp; lia).
  assert (Hq0 : (0 <= Zpos m / 2 ^ Zpos p)%Z).
  { apply Z.div_pos; [clear; lia | exact H2p]. }
  assert (Hq2 : (Zpos m / 2 ^ Zpos p < 2)%Z).
  { apply Z.div_lt_upper_bound; [exact H2p |].
    clear - Hm Hp. generalize dependent (2 ^ Zpos p)%Z. intros x Hx. lia. }
  assert (Hq : (Zpos m / 2 ^ Zpos p = 0 \/ Zpos m / 2 ^ Zpos p = 1)%Z).
  { clear - Hq0 Hq2. generalize dependent (Zpos m / 2 ^ Zpos p)%Z.
    intros q H0 H2. lia. }
  destruct Hq as [-> | ->]; [left | right]; reflexivity.
Qed.

(** X20.  In binary64 every attempt below 2 is attempt 1: for a double
    [a < 2] in canonical form (a zero, a negative number, [-Infinity], or a
    positive number whose mantissa is normalized) the normalized attempt is
    1, and the calculator returns what it returns for the attempt 1,
    whatever the options and the random value. *)
Theorem small_attempts_are_attempt_one
    (a : spec_float) (options : option (BackoffOptions spec_float))
    (w : World spec_float) :
  valid_binary prec emax a = true -> SFltb a (of_Q 2) = true ->
  normalizedAttempt a = of_Q 1 /\
  calculateExponentialBackoff a options w
  = calculateExponentialBackoff (of_Q 1) options w.
Proof.
  intros Hv Hlt.
  assert (Hn : normalizedAttempt a = of_Q 1).
  { unfold normalizedAttempt.
    cbn [Math_max Math_floor literal binary64]. rewrite literal_one.
    destruct a as [s | [|] | | [|] m e]; try discriminate.
    - destruct s; reflexivity.
    - reflexivity.
    - apply max_one_negative, floor_negative.
    - destruct (floor_small_positive m e Hv Hlt) as [-> | ->]; reflexivity. }
  split; [exact Hn |].
  apply calc_normalized. rewrite Hn. reflexivity.
Qed.

Lemma small_attempts_are_attempt_one_witness :
  let a := of_Q (-7 # 2) in
  valid_binary prec emax a = true /\ SFltb a (of_Q 2) = true /\
  normalizedAttempt a = of_Q 1.
Proof.
  cbv zeta.
  assert (Hv : valid_binary prec emax (of_Q (-7 # 2)) = true) by reflexivity.
  assert (Hlt : SFltb (of_Q (-7 # 2)) (of_Q 2) = true) by reflexivity.
  split; [exact Hv | split; [exact Hlt |]].
  exact (proj1 (small_attempts_are_attempt_one
                  (of_Q (-7 # 2)) None (double_world (of_Q 0)) Hv Hlt)).
Defined.

(** ** The default delays are exact *)

(** A number with [j] trailing zeros whose other digits are canonical at
    an exponent above the largest one: it rounds to an infinity. *)
Lemma binary_round_aux_shift_overflow s q j e :
  fexp prec emax (Zpos (digits2_pos q) + (e + Z.of_nat j))
  = (e + Z.of_nat j)%Z ->
  (emax - prec < e + Z.of_nat j)%Z ->
  binary_round_aux prec emax s (Zpos (shl q j)) e loc_Exact
  = S754_infinity s.
Proof.
  intros Hcan Hmax.
  assert (Hfirst : shr_fexp prec emax (Zpos (shl q j)) e loc_Exact
                   = ({| shr_m := Zpos q; shr_r := false; shr_s := false |},
                      (e + Z.of_nat j)%Z)).
  { unfold shr_fexp. cbn [Zdigits2 shr_record_of_loc].
    rewrite shl_digits.
    replace (Zpos (digits2_pos q) + Z.of_nat j + e)%Z
      with (Zpos (digits2_pos q) + (e + Z.of_nat j))%Z by lia.
    rewrite Hcan.
    replace (e + Z.of_nat j - e)%Z with (Z.of_nat j) by lia.
    destruct j as [| j].
    - cbn [Z.of_nat shr]. rewrite Z.add_0_r. reflexivity.
    - cbn [Z.of_nat shr]. rewrite iter_pos_nat, SuccNat2Pos.id_succ.
      replace (shl q (S j)) with (shl q (S j + 0))
        by (rewrite Nat.add_0_r; reflexivity).
      rewrite iter_shr_1_shl. reflexivity. }
  unfold binary_round_aux. rewrite Hfirst.
  cbn [shr_m loc_of_shr_record round_nearest_even].
  unfold shr_fexp. cbn [Zdigits2 shr_record_of_loc].
  rewrite Hcan, Z.sub_diag. cbn [shr shr_m].
  assert (Hb : (e + Z.of_nat j <=? emax - prec)%Z = false)
    by (apply Z.leb_gt; exact Hmax).
  rewrite Hb. reflexivity.
Qed.

(** The powers of two from [2^0] to [2^1023] are doubles. *)
Lemma pow2_of_Z (k : Z) :
  (0 <= k <= 1023)%Z ->
  pow2 (of_Z k) = S754_finite false 4503599627370496 (k - 52).
Proof.
  intros [H0 H1]. destruct k as [| q | q]; [reflexivity | | lia].
  assert (Hq : (Zpos q < 2 ^ 53)%Z).
  { apply Z.le_lt_trans with 1023%Z; [exact H1 | reflexivity]. }
  pose proof (digits_le_53 q Hq) as Hd.
  rewrite (of_Z_small q Hd). unfold pow2.
  rewrite (integer_value_of_Z_small q Hd).
  assert (Hlt : (Zpos q <? -1075)%Z = false) by (apply Z.ltb_ge; lia).
  rewrite Hlt.
  unfold binary_round, shl_align. cbn [digits2_pos].
  rewrite fexp_eq.
  assert (E1 : Z.max (1 + Zpos q - 53) (-1074) = (Zpos q - 52)%Z) by lia.
  assert (E2 : (Zpos q - 52 - Zpos q)%Z = Z.neg 52) by lia.
  rewrite E1, E2.
  change (Pos.iter xO 1%positive 52) with (shl 4503599627370496 0).
  rewrite binary_round_aux_shift.
  - f_equal. cbn [Z.of_nat]. lia.
  - rewrite fexp_eq.
    change (Zpos (digits2_pos 4503599627370496)) with 53%Z.
    cbn [Z.of_nat]. lia.
  - unfold emax, prec. cbn [Z.of_nat]. lia.
Qed.

(** 1000 times a power of two: exact up to [2^1014], an overflow from
    [2^1015] on. *)
Lemma mul_1000_pow2 (k : Z) :
  (0 <= k <= 1023)%Z ->
  SFmul prec emax (of_Q 1000) (S754_finite false 4503599627370496 (k - 52))
  = if (k <=? 1014)%Z
    then S754_finite false 8796093022208000 (k - 43)
    else pos_Infinity.
Proof.
  intros [H0 H1].
  change (of_Q 1000) with (S754_finite false 8796093022208000 (-43)).
  cbn [SFmul xorb].
  change (Zpos (8796093022208000 * 4503599627370496))
    with (Zpos (shl 8796093022208000 52)).
  assert (Hcan : fexp prec emax
                   (Zpos (digits2_pos 8796093022208000)
                    + (-43 + (k - 52) + Z.of_nat 52))
                 = (-43 + (k - 52) + Z.of_nat 52)%Z).
  { rewrite fexp_eq.
    change (Zpos (digits2_pos 8796093022208000)) with 53%Z.
    change (Z.of_nat 52) with 52%Z. lia. }
  destruct (k <=? 1014)%Z eqn:Hk.
  - apply Z.leb_le in Hk.
    rewrite (binary_round_aux_shift _ _ _ _ Hcan).
    + f_equal. change (Z.of_nat 52) with 52%Z. lia.
    + unfold emax, prec. change (Z.of_nat 52) with 52%Z. lia.
  - apply Z.leb_gt in Hk.
    apply (binary_round_aux_shift_overflow _ _ _ _ Hcan).
    unfold emax, prec. change (Z.of_nat 52) with 52%Z. lia.
Qed.

(** The raw delay of the default base delay at the attempts 2 to 1024. *)
Lemma rawDelay_1000 (n : Z) :
  (2 <= n <= 1024)%Z ->
  rawDelay (of_Q 1000) (of_Z n)
  = if (n <=? 1015)%Z
    then S754_finite false 8796093022208000 (n - 44)
    else pos_Infinity.
Proof.
  intros [H0 H1]. unfold rawDelay.
  assert (H53 : (n < 2 ^ 53)%Z).
  { apply Z.le_lt_trans with 1024%Z; [exact H1 | reflexivity]. }
  rewrite exponent_of_Z by (split; assumption).
  cbn [num_mul Math_pow2 binary64].
  rewrite pow2_of_Z by lia. rewrite mul_1000_pow2 by lia.
  replace (n - 1 <=? 1014)%Z with (n <=? 1015)%Z.
  - destruct (n <=? 1015)%Z; [f_equal; lia | reflexivity].
  - destruct (n <=? 1015)%Z eqn:E1, (n - 1 <=? 1014)%Z eqn:E2;
      try reflexivity;
      [apply Z.leb_le in E1; apply Z.leb_gt in E2
      | apply Z.leb_gt in E1; apply Z.leb_le in E2]; lia.
Qed.

(** From attempt 4 on the raw delay is above 5000. *)
Lemma rawDelay_1000_capped (n : Z) :
  (4 <= n < 2 ^ 53)%Z ->
  IEEE.min (rawDelay (of_Q 1000) (of_Z n)) (of_Q 5000) = of_Q 5000 /\
  SFltb (of_Q 5000) (rawDelay (of_Q 1000) (of_Z n)) = true.
Proof.
  intros [H0 H1].
  destruct (Z_le_gt_dec n 1024) as [Hn | Hn].
  - rewrite rawDelay_1000 by lia.
    destruct (n <=? 1015)%Z; [| split; reflexivity].
    change (of_Q 5000) with (S754_finite false 5497558138880000 (-40)).
    unfold IEEE.min, SFltb. cbn [SFcompare].
    destruct (Z.compare_spec (n - 44) (-40)) as [E | E | E].
    + rewrite E. split; reflexivity.
    + lia.
    + rewrite (Z.compare_antisym (n - 44) (-40)).
      apply Z.compare_gt_iff in E. rewrite E. split; reflexivity.
  - rewrite large_attempt_overflows by (try reflexivity; lia).
    split; reflexivity.
Qed.

(** X21.  In binary64, with the default base delay 1000 and maximal delay
    5000 and the jitter factor 0, no rounding shows: for every integer
    attempt [n] from 1 to [2^53 - 1] the delay returned is exactly the
    double of [min (1000 * 2^(n-1)) 5000], the attempt is capped exactly
    from [n = 4] on, and the raw delay is the double [1000 * 2^(n-1)] up to
    [n = 1015] and [+Infinity] from [n = 1016] on. *)
Theorem default_delays_are_exact
    (n : Z) (w : World spec_float) :
  (1 <= n < 2 ^ 53)%Z ->
  let r := fst (calculateExponentialBackoff
                  (of_Z n) (double_config 1000 5000 0) w) in
  retryAttempt r = of_Z n /\
  delayMs r = of_Z (Z.min (1000 * 2 ^ (n - 1)) 5000) /\
  cappedDelayMs r = delayMs r /\
  wasCapped r = (4 <=? n)%Z /\
  ((n <= 1015)%Z ->
   rawDelayMs r = S754_finite false 8796093022208000 (n - 44)) /\
  ((1016 <= n)%Z -> rawDelayMs r = pos_Infinity).
Proof.
  intros [H1 H53]. cbv zeta.
  assert (E : (jitter_of (double_config 1000 5000 0) >? literal 0)%js
              = false) by reflexivity.
  rewrite (calc_jitter_off _ _ _ E).
  cbn [fst retryAttempt delayMs cappedDelayMs wasCapped rawDelayMs
       new_BackoffResult].
  change (base_of (double_config 1000 5000 0)) with (of_Q 1000).
  change (max_of (double_config 1000 5000 0)) with (of_Q 5000).
  split; [apply normalizedAttempt_of_Z; split; assumption |].
  assert (Hsmall : n = 1%Z \/ n = 2%Z \/ n = 3%Z \/ (4 <= n)%Z) by lia.
  destruct Hsmall as [-> | [-> | [-> | H4]]];
    [repeat split; try reflexivity; intros H; exfalso; lia ..|].
  destruct (rawDelay_1000_capped n (conj H4 H53)) as [Hmin Hlt].
  unfold cappedDelay. cbn [Math_min Math_max num_gt literal binary64].
  rewrite Hmin, Hlt.
  assert (Hz : Z.min (1000 * 2 ^ (n - 1)) 5000 = 5000%Z).
  { assert (Hp : (2 ^ 3 <= 2 ^ (n - 1))%Z)
      by (apply Z.pow_le_mono_r; lia).
    change (2 ^ 3)%Z with 8%Z in Hp. lia. }
  rewrite Hz.
  split; [reflexivity |]. split; [reflexivity |].
  split; [symmetry; apply Z.leb_le; exact H4 |].
  split.
  - intros Hn. rewrite rawDelay_1000 by lia.
    apply Z.leb_le in Hn. rewrite Hn. reflexivity.
  - intros Hn. destruct (Z_le_gt_dec n 1024) as [Hle | Hgt].
    + rewrite rawDelay_1000 by lia.
      assert (Hb : (n <=? 1015)%Z = false) by (apply Z.leb_gt; lia).
      rewrite Hb. reflexivity.
    + apply large_attempt_overflows; [lia | reflexivity].
Qed.

Lemma default_delays_are_exact_witness :
  (1 <= 900 < 2 ^ 53)%Z /\
  delayMs (fst (calculateExponentialBackoff
                  (of_Z 900) (double_config 1000 5000 0)
                  (double_world (of_Q 0))))
  = of_Z (Z.min (1000 * 2 ^ (900 - 1)) 5000).
Proof.
  assert (H : (1 <= 900 < 2 ^ 53)%Z) by (split; [lia | reflexivity]).
  split; [exact H |].
  exact (proj1 (proj2 (default_delays_are_exact
                         900 (double_world (of_Q 0)) H))).
Defined.

(** * The delay functions of the example service *)

Section DelayFunctionFacts.

Context {num : Type} {NUM : JSNumber num} {TXT : JSNumberText num}.

(** A timer made with [emitDelay] missing is the plain timer on the
    calculated delay. *)
Lemma createBackoffTimer_plain
    (retryCount : num) (o : BackoffOptions num) (debug : option bool)
    (k : Runtime num) :
  let s := createBackoffTimer retryCount
             (Some {| backoffOptions := o; emitDelay := None;
                      enableDebugLogs := debug |}) k in
  let c := calculateExponentialBackoff retryCount (Some o) (world k) in
  fst s = timer (delayMs (fst c)) /\ world (snd s) = snd c.
Proof.
  cbv zeta. unfold createBackoffTimer. rewrite create_unfold.
  split; reflexivity.
Qed.

Lemma returned_timer {E : Type} (c : IO (Observable num)) (k : Runtime num) :
  io_bind c (fun observable => io_ret (@returned num E observable)) k
  = (returned (fst (c k)), snd (c k)).
Proof. unfold io_bind, io_ret. destruct (c k). reflexivity. Qed.

(** X22.  The delay function of [retryHttpRequestWithCustomLogic].  When
    [shouldRetry] is given and rejects the error, the error is thrown
    again and nothing else happens: no random value is drawn and nothing
    is written.  Otherwise ([shouldRetry] missing, or accepting the error)
    the function returns the observable of
    [createBackoffTimer(retryCount)]: the options it spells out are the
    defaults. *)
Theorem custom_logic_delay
    {E : Type} (shouldRetry' : option (E -> bool)) (error : E)
    (retryCount : num) (k : Runtime num) :
  let out := customLogicDelay shouldRetry' error retryCount k in
  let t := createBackoffTimer retryCount None k in
  (forall f : E -> bool,
     shouldRetry' = Some f -> f error = false -> out = (throw error, k)) /\
  (shouldRetry' = None \/
   (exists f : E -> bool, shouldRetry' = Some f /\ f error = true) ->
   out = (returned (fst t), snd t)).
Proof.
  cbv zeta. unfold customLogicDelay. split.
  - intros f -> Hf. rewrite Hf. reflexivity.
  - intros H.
    assert (Hc : match shouldRetry' with
                 | Some f => negb (f error)
                 | None => false
                 end = false).
    { destruct H as [-> | (f & -> & Hf)]; [reflexivity |].
      rewrite Hf. reflexivity. }
    rewrite Hc, returned_timer.
    unfold createBackoffTimer. rewrite !create_unfold. reflexivity.
Qed.

End DelayFunctionFacts.

(** The delay of a timer with a positive base delay, maximal delay and
    jitter factor, at an integer retry count [n >= 1]. *)
Lemma jittered_timer_bounds
    (show : Q -> String.string) (a : Q) (n : Z) (base max f : Q)
    (debug : option bool) (k : Runtime Q) :
  a == inject_Z n -> (1 <= n)%Z ->
  0 < base -> 0 < max -> 0 < f ->
  0 <= next_random (world k) < 1 ->
  exists d : Q,
    fst (@createBackoffTimer Q Q_number (Q_text show) a
           (Some {| backoffOptions :=
                      {| baseDelayMs := Some base; maxDelayMs := Some max;
                         jitterFactor := Some f |};
                    emitDelay := None; enableDebugLogs := debug |}) k)
    = timer d /\
    (1 - f) * Qmin (base * 2 ^ (n - 1)) max <= d
    <= (1 + f) * Qmin (base * 2 ^ (n - 1)) max.
Proof.
  intros Ha Hn Hb Hm Hf Hu.
  eexists. split; [apply createBackoffTimer_plain |].
  fold (config base max f).
  assert (Hf' : 0 < jitter_of (config base max f)) by exact Hf.
  destruct (jitter_branch_exact a (config base max f) (world k) Hf')
    as (_ & _ & Ed).
  cbv zeta in Ed. rewrite Ed.
  change (base_of (config base max f)) with base.
  change (max_of (config base max f)) with max.
  change (jitter_of (config base max f)) with f.
  assert (Hc : cappedDelay base max a == Qmin (base * 2 ^ (n - 1)) max).
  { rewrite cappedDelay_exact, (floor_of_integer _ _ Ha).
    replace (Z.max 1 n) with n by lia. reflexivity. }
  rewrite <- Hc.
  pose proof (capped_positive base max a Hb Hm) as Hpos.
  set (c := cappedDelay base max a) in *.
  destruct (offset_bounds c f (next_random (world k))
              (Qlt_le_weak _ _ Hpos) Hf Hu) as [[Ol Oh] _].
  split.
  - apply Qle_trans with (c + (next_random (world k) * 2 - 1) * (c * f));
      [lra | apply Q.le_max_r].
  - apply Q.max_lub; [| lra].
    assert (Hcf : 0 <= c * f) by (apply Qmult_le_0_compat; lra). lra.
Qed.

(** X23.  The delay function of [retryHttpWithStatusCodeLogic], at an
    integer retry count [n >= 1] and for a random value in [[0,1)].  An
    error with a status below 500 other than 429 is thrown again, and
    nothing else happens.  For the status 429 the function returns a timer
    on a delay within a quarter of [min (2000 * 2^(n-1)) 30000]; for a
    status of 500 or more, within a quarter of
    [min (1000 * 2^(n-1)) 30000]. *)
Theorem status_code_retry_policy
    (show : Q -> String.string) (error : HttpRequestError Q)
    (a : Q) (n : Z) (k : Runtime Q) :
  a == inject_Z n -> (1 <= n)%Z -> 0 <= next_random (world k) < 1 ->
  let s := status error in
  let out := @statusCodeDelay Q Q_number (Q_text show) error a k in
  let within (base d : Q) :=
    (3 # 4) * Qmin (base * 2 ^ (n - 1)) 30000 <= d
    <= (5 # 4) * Qmin (base * 2 ^ (n - 1)) 30000 in
  (s < 500 -> ~ s == 429 -> out = (throw error, k)) /\
  (s == 429 ->
   exists d : Q, fst out = returned (timer d) /\ within 2000 d) /\
  (500 <= s ->
   exists d : Q, fst out = returned (timer d) /\ within 1000 d).
Proof.
  intros Ha Hn Hu. cbv zeta. unfold statusCodeDelay.
  cbn [num_gt num_ne literal Q_number Q_text].
  split; [| split].
  - intros Hs Hne.
    assert (H1 : Qgtb 500 (status error) = true) by (apply Qgtb_true, Hs).
    assert (H2 : Qeq_bool (status error) 429 = false).
    { destruct (Qeq_bool (status error) 429) eqn:E; [| reflexivity].
      apply Qeq_bool_iff in E. contradiction. }
    rewrite H1, H2. reflexivity.
  - intros Hs.
    assert (H2 : Qeq_bool (status error) 429 = true)
      by (apply Qeq_bool_iff, Hs).
    rewrite H2, andb_false_r. cbn [negb].
    rewrite returned_timer. cbn [fst].
    destruct (jittered_timer_bounds show a n 2000 30000 (1 # 4) None k
                Ha Hn eq_refl eq_refl eq_refl Hu) as (d & Hd & Hb).
    exists d. split; [rewrite Hd; reflexivity |].
    setoid_replace (3 # 4) with (1 - (1 # 4)) by reflexivity.
    setoid_replace (5 # 4) with (1 + (1 # 4)) by reflexivity.
    exact Hb.
  - intros Hs.
    assert (H1 : Qgtb 500 (status error) = false) by (apply Qgtb_false, Hs).
    assert (H2 : Qeq_bool (status error) 429 = false).
    { destruct (Qeq_bool (status error) 429) eqn:E; [| reflexivity].
      apply Qeq_bool_iff in E. rewrite E in Hs.
      exfalso. apply (Qle_not_lt _ _ Hs). reflexivity. }
    rewrite H1, H2. cbn [andb negb].
    rewrite returned_timer. cbn [fst].
    destruct (jittered_timer_bounds show a n 1000 30000 (1 # 4) None k
                Ha Hn eq_refl eq_refl eq_refl Hu) as (d & Hd & Hb).
    exists d. split; [rewrite Hd; reflexivity |].
    setoid_replace (3 # 4) with (1 - (1 # 4)) by reflexivity.
    setoid_replace (5 # 4) with (1 + (1 # 4)) by reflexivity.
    exact Hb.
Qed.

Lemma status_code_retry_policy_witness :
  let k := {| world := constant_world (1 # 2); console := [] |} in
  let error := {| message := "Too Many Requests"%string; status := 429 |} in
  2 == inject_Z 2 /\ (1 <= 2)%Z /\ 0 <= next_random (world k) < 1 /\
  exists d : Q,
    fst (@statusCodeDelay Q Q_number (Q_text (fun _ => ""%string))
                          error 2 k) = returned (timer d) /\
    (3 # 4) * Qmin (2000 * 2 ^ (2 - 1)) 30000 <= d
    <= (5 # 4) * Qmin (2000 * 2 ^ (2 - 1)) 30000.
Proof.
  cbv zeta.
  assert (Ha : 2 == inject_Z 2) by reflexivity.
  assert (Hn : (1 <= 2)%Z) by lia.
  assert (Hu : 0 <= next_random
                      (world {| world := constant_world (1 # 2);
                                console := [] |}) < 1).
  { split; [discriminate | reflexivity]. }
  split; [exact Ha | split; [exact Hn | split; [exact Hu |]]].
  exact (proj1 (proj2 (status_code_retry_policy
                         (fun _ => ""%string)
                         {| message := "Too Many Requests"%string;
                            status := 429 |}
                         2 2
                         {| world := constant_world (1 # 2); console := [] |}
                         Ha Hn Hu)) eq_refl).
Defined.

(** X24.  The delay function [HttpRetryService] keeps in
    [backoffDelayFunction] (base delay 250, maximal delay 1000, jitter
    factor 1/4), for any error, any retry count (an integer or not, below
    1 or not) and any random value in [[0,1)]: it returns a plain timer,
    whose delay is at least 187.5 and at most 1250. *)
Theorem service_delay_is_bounded
    {E : Type} (show : Q -> String.string) (error : E) (a : Q)
    (k : Runtime Q) :
  0 <= next_random (world k) < 1 ->
  exists d : Q,
    fst (@backoffDelayFunction Q Q_number (Q_text show) E error a k)
    = timer d /\
    (375 # 2) <= d <= 1250.
Proof.
  intros Hu. eexists.
  split.
  { unfold backoffDelayFunction, createBackoffDelayFunction.
    apply (createBackoffTimer_plain a
             {| baseDelayMs := Some 250; maxDelayMs := Some 1000;
                jitterFactor := Some (1 # 4) |} None k). }
  fold (config 250 1000 (1 # 4)).
  assert (Hf : 0 < jitter_of (config 250 1000 (1 # 4))) by reflexivity.
  destruct (jitter_branch_exact a (config 250 1000 (1 # 4)) (world k) Hf)
    as (_ & _ & Ed).
  cbv zeta in Ed. rewrite Ed.
  change (base_of (config 250 1000 (1 # 4))) with 250.
  change (max_of (config 250 1000 (1 # 4))) with 1000.
  change (jitter_of (config 250 1000 (1 # 4))) with (1 # 4).
  assert (H0 : 0 <= 250) by discriminate.
  destruct (capped_between 250 1000 a H0) as [Hlo Hhi].
  assert (Hmin : Qmin 250 1000 == 250) by reflexivity.
  rewrite Hmin in Hlo.
  set (c := cappedDelay 250 1000 a) in *.
  assert (Hc : 0 <= c) by lra.
  destruct (offset_bounds c (1 # 4) (next_random (world k)) Hc eq_refl Hu)
    as [[Ol Oh] _].
  split.
  - apply Qle_trans with (c + (next_random (world k) * 2 - 1)
                              * (c * (1 # 4)));
      [lra | apply Q.le_max_r].
  - apply Q.max_lub; lra.
Qed.

Lemma service_delay_is_bounded_witness :
  let k := {| world := constant_world (1 # 3); console := [] |} in
  0 <= next_random (world k) < 1 /\
  exists d : Q,
    fst (@backoffDelayFunction Q Q_number (Q_text (fun _ => ""%string))
                               unit tt 3 k) = timer d /\
    (375 # 2) <= d <= 1250.
Proof.
  cbv zeta.
  assert (Hu : 0 <= next_random
                      (world {| world := constant_world (1 # 3);
                                console := [] |}) < 1).
  { split; [discriminate | reflexivity]. }
  split; [exact Hu |].
  exact (service_delay_is_bounded
           (fun _ => ""%string) tt 3
           {| world := constant_world (1 # 3); console := [] |} Hu).
Defined.
